(** * libchain: a shallow embedding of the ledger core

    The development follows the three source files of the repository:

    - [blockchain.py]: class [Chain] (one hash chain per book) and the
      block-verification method of class [Node];
    - [library.py]: class [Library], the container of chains;
    - [app.py]: only for the shape of the values that reach the core
      (decoded JSON request bodies).

    Python values are modelled by the inductive type [pyval]; a Python
    [dict] is an association list in insertion order, as CPython keeps it.
    Operations that can raise return a [result]; the methods that mutate an
    object return the outcome together with the object after the call. *)

From Stdlib Require Import ZArith List String Ascii Bool Lia.
From Stdlib Require Import Permutation Sorted DecimalString.
Import ListNotations.

Local Open Scope string_scope.
Local Open Scope Z_scope.

(* ================================================================== *)
(** ** SHA-256 (FIPS 180-4), as computed by [hashlib.sha256]           *)
(* ================================================================== *)

Module SHA256.

(** 32-bit words are integers in [0, 2^32); every addition wraps. *)
Definition wrap (x : Z) : Z := x mod 2 ^ 32.
Definition add32 (x y : Z) : Z := wrap (x + y).
Definition rotr (n x : Z) : Z :=
  Z.lor (Z.shiftr x n) (wrap (Z.shiftl x (32 - n))).
Definition not32 (x : Z) : Z := Z.lxor x (2 ^ 32 - 1).

Definition ch (x y z : Z) : Z := Z.lxor (Z.land x y) (Z.land (not32 x) z).
Definition maj (x y z : Z) : Z :=
  Z.lxor (Z.lxor (Z.land x y) (Z.land x z)) (Z.land y z).
Definition bsig0 (x : Z) : Z := Z.lxor (Z.lxor (rotr 2 x) (rotr 13 x)) (rotr 22 x).
Definition bsig1 (x : Z) : Z := Z.lxor (Z.lxor (rotr 6 x) (rotr 11 x)) (rotr 25 x).
Definition ssig0 (x : Z) : Z := Z.lxor (Z.lxor (rotr 7 x) (rotr 18 x)) (Z.shiftr x 3).
Definition ssig1 (x : Z) : Z := Z.lxor (Z.lxor (rotr 17 x) (rotr 19 x)) (Z.shiftr x 10).

(** The round constants and the initial state are the first 32 bits of
    the fractional parts of the cube roots (resp. square roots) of the
    first primes; they are computed here rather than tabulated. *)
Definition primes : list Z :=
  [2; 3; 5; 7; 11; 13; 17; 19; 23; 29; 31; 37; 41; 43; 47; 53;
   59; 61; 67; 71; 73; 79; 83; 89; 97; 101; 103; 107; 109; 113; 127; 131;
   137; 139; 149; 151; 157; 163; 167; 173; 179; 181; 191; 193; 197; 199;
   211; 223; 227; 229; 233; 239; 241; 251; 257; 263; 269; 271; 277; 281;
   283; 293; 307; 311].

(** Integer cube root, one bit at a time from bit [bits - 1] down. *)
Fixpoint icbrt (bits : nat) (n r : Z) : Z :=
  match bits with
  | O => r
  | S b =>
      let r' := r + 2 ^ Z.of_nat b in
      icbrt b n (if r' * r' * r' <=? n then r' else r)
  end.

Definition K : list Z :=
  Eval vm_compute in map (fun p => wrap (icbrt 40 (p * 2 ^ 96) 0)) primes.
Definition H0 : list Z :=
  Eval vm_compute in map (fun p => wrap (Z.sqrt (p * 2 ^ 64))) (firstn 8 primes).

(** The hash state: eight working words. *)
Record state := St { sa : Z; sb : Z; sc : Z; sd : Z; se : Z; sf : Z; sg : Z; sh : Z }.

Definition init : state :=
  match H0 with
  | [a; b; c; d; e; f; g; h] => St a b c d e f g h
  | _ => St 0 0 0 0 0 0 0 0
  end.

Definition round (s : state) (kw : Z * Z) : state :=
  let (k, w) := kw in
  let t1 := add32 (add32 (add32 (add32 (sh s) (bsig1 (se s))) (ch (se s) (sf s) (sg s))) k) w in
  let t2 := add32 (bsig0 (sa s)) (maj (sa s) (sb s) (sc s)) in
  St (add32 t1 t2) (sa s) (sb s) (sc s) (add32 (sd s) t1) (se s) (sf s) (sg s).

(** Message schedule.  [rev_ws] holds the words computed so far, the most
    recent first. *)
Fixpoint schedule (n : nat) (rev_ws : list Z) : list Z :=
  match n with
  | O => rev rev_ws
  | S n' =>
      let w := add32 (add32 (add32 (ssig1 (nth 1 rev_ws 0)) (nth 6 rev_ws 0))
                            (ssig0 (nth 14 rev_ws 0))) (nth 15 rev_ws 0) in
      schedule n' (w :: rev_ws)
  end.

Definition compress (s : state) (block : list Z) : state :=
  let ws := schedule 48 (rev block) in
  let s' := fold_left round (combine K ws) s in
  St (add32 (sa s) (sa s')) (add32 (sb s) (sb s')) (add32 (sc s) (sc s'))
     (add32 (sd s) (sd s')) (add32 (se s) (se s')) (add32 (sf s) (sf s'))
     (add32 (sg s) (sg s')) (add32 (sh s) (sh s')).

(** Big-endian encoding of [n] on [len] bytes. *)
Fixpoint be_bytes (len : nat) (n : Z) : list Z :=
  match len with
  | O => []
  | S l => Z.land (Z.shiftr n (8 * Z.of_nat l)) 255 :: be_bytes l n
  end.

Definition pad (msg : list Z) : list Z :=
  let len := Z.of_nat (List.length msg) in
  msg ++ [128] ++ repeat 0 (Z.to_nat ((55 - len) mod 64)) ++ be_bytes 8 (8 * len).

(** Big-endian 32-bit words of a byte list. *)
Fixpoint words (fuel : nat) (bs : list Z) : list Z :=
  match fuel, bs with
  | S f, b0 :: b1 :: b2 :: b3 :: rest =>
      (((b0 * 256 + b1) * 256 + b2) * 256 + b3) :: words f rest
  | _, _ => []
  end.

(** One compression per 16 words. *)
Fixpoint blocks (fuel : nat) (ws : list Z) (s : state) : state :=
  match fuel, ws with
  | S f, _ :: _ => blocks f (skipn 16 ws) (compress s (firstn 16 ws))
  | _, _ => s
  end.

Definition digest (msg : list Z) : state :=
  let bs := pad msg in
  let ws := words (List.length bs) bs in
  blocks (List.length ws) ws init.

Definition state_words (s : state) : list Z :=
  [sa s; sb s; sc s; sd s; se s; sf s; sg s; sh s].

End SHA256.

(** Lowercase hexadecimal digits, as [hexdigest] and [format(n, 'x')]
    print them. *)
Definition hex_digits : list ascii := list_ascii_of_string "0123456789abcdef".

Definition hex_digit (n : Z) : ascii :=
  nth (Z.to_nat (n mod 16)) hex_digits "0"%char.

(** [hex_of len n]: the [len] low nibbles of [n], most significant first. *)
Fixpoint hex_of (len : nat) (n : Z) : string :=
  match len with
  | O => EmptyString
  | S l => String (hex_digit (Z.shiftr n (4 * Z.of_nat l))) (hex_of l n)
  end.

Definition bytes_of_string (s : string) : list Z :=
  map (fun c => Z.of_N (N_of_ascii c)) (list_ascii_of_string s).

(** [hashlib.sha256(b).hexdigest()] on the bytes of an ASCII string. *)
Definition sha256_hexdigest (s : string) : string :=
  String.concat "" (map (hex_of 8) (SHA256.state_words (SHA256.digest (bytes_of_string s)))).

(* ================================================================== *)
(** ** Python values                                                   *)
(* ================================================================== *)

(** The floats that are no numbers and the infinite ones: [float('nan')],
    [float('inf')], [float('-inf')].  [json.loads] reads them from [NaN],
    [Infinity] and [-Infinity], and [json.dumps] prints them so. *)
Inductive nonfinite : Type := NaN | PosInf | NegInf.

(** The values that [json.loads] produces and [json.dumps] accepts: [None],
    booleans, integers, the floats above, strings, lists, and dicts with
    string keys.  Finite floats are left out: the text [float.__repr__]
    prints for them is not modelled.  A Python [str] is modelled by a
    [string] whose characters are the code points (below 256) of the Python
    string.  A [dict] is the list of its items in insertion order. *)
#[warnings="-register-all"]
Inductive pyval : Type :=
| PNone
| PBool (b : bool)
| PInt (z : Z)
| PStr (s : string)
| PList (l : list pyval)
| PDict (d : list (string * pyval))
| PFloat (x : nonfinite).

Definition pydict : Type := list (string * pyval).

(** Induction principle that reaches through lists and dicts. *)
Section pyval_induction.
Variable P : pyval -> Prop.
Hypothesis HNone : P PNone.
Hypothesis HBool : forall b, P (PBool b).
Hypothesis HInt : forall z, P (PInt z).
Hypothesis HStr : forall s, P (PStr s).
Hypothesis HList : forall l, Forall P l -> P (PList l).
Hypothesis HDict : forall d, Forall (fun kv => P (snd kv)) d -> P (PDict d).
Hypothesis HFloat : forall x, P (PFloat x).

Fixpoint pyval_nested_ind (v : pyval) : P v :=
  match v with
  | PNone => HNone
  | PBool b => HBool b
  | PInt z => HInt z
  | PStr s => HStr s
  | PList l =>
      HList l ((fix go (l : list pyval) : Forall P l :=
                  match l with
                  | [] => Forall_nil _
                  | x :: l' => Forall_cons x (pyval_nested_ind x) (go l')
                  end) l)
  | PDict d =>
      HDict d ((fix go (d : pydict) : Forall (fun kv => P (snd kv)) d :=
                  match d with
                  | [] => Forall_nil _
                  | kv :: d' =>
                      @Forall_cons _ (fun kv => P (snd kv)) kv d'
                                   (pyval_nested_ind (snd kv)) (go d')
                  end) d)
  | PFloat x => HFloat x
  end.
End pyval_induction.

(** Exceptions the modelled code can raise; [RequestException] stands for
    what [requests.post] raises when a neighbour cannot be reached. *)
Inductive exn : Type :=
| KeyError | IndexError | TypeError | AttributeError | UnboundLocalError | ValueError
| RequestException.

Inductive result (A : Type) : Type :=
| Ok (a : A)
| Raise (e : exn).
Arguments Ok {A} a.
Arguments Raise {A} e.

Definition bind {A B : Type} (r : result A) (k : A -> result B) : result B :=
  match r with
  | Ok a => k a
  | Raise e => Raise e
  end.

Notation "x <- e ;; k" := (bind e (fun x => k))
  (at level 61, e at next level, right associativity).

(** *** Dict primitives *)

(** [d.get(k)] seen as an option; the first item with the key. *)
Fixpoint dict_get (d : pydict) (k : string) : option pyval :=
  match d with
  | [] => None
  | (k', v) :: d' => if String.eqb k' k then Some v else dict_get d' k
  end.

(** [d[k] = v]: an existing key keeps its position, a new key goes last. *)
Fixpoint dict_set (d : pydict) (k : string) (v : pyval) : pydict :=
  match d with
  | [] => [(k, v)]
  | (k', v') :: d' =>
      if String.eqb k' k then (k', v) :: d' else (k', v') :: dict_set d' k v
  end.

(** [{**a, **b}]: the items of [a], then those of [b] stored one by one. *)
Definition dict_merge (a b : pydict) : pydict :=
  fold_left (fun acc kv => dict_set acc (fst kv) (snd kv)) b a.

Definition keys (d : pydict) : list string := map fst d.

(** [x[k]] for a string key [k]. *)
Definition getitem (x : pyval) (k : string) : result pyval :=
  match x with
  | PDict d =>
      match dict_get d k with
      | Some v => Ok v
      | None => Raise KeyError
      end
  | _ => Raise TypeError
  end.

(** [x.get(k)]: only dicts have the method. *)
Definition get_method (x : pyval) (k : string) : result pyval :=
  match x with
  | PDict d =>
      match dict_get d k with
      | Some v => Ok v
      | None => Ok PNone
      end
  | _ => Raise AttributeError
  end.

(** Truth value of a Python object, as [if x:] and [x or y] test it. *)
Definition truthy (x : pyval) : bool :=
  match x with
  | PNone => false
  | PBool b => b
  | PInt z => negb (z =? 0)
  | PStr s => negb (String.eqb s "")
  | PList l => match l with [] => false | _ => true end
  | PDict d => match d with [] => false | _ => true end
  | PFloat _ => true
  end.

Definition is_nan (x : pyval) : bool :=
  match x with
  | PFloat NaN => true
  | _ => false
  end.

(** Python's [==]: [bool] is a subclass of [int]; [nan] equals nothing,
    itself included; lists compare item by item; dicts compare as
    mappings, whatever the insertion order.  Lists and dicts compare their
    items with [PyObject_RichCompareBool], which answers [True] for one
    and the same object before it asks [==]; every [nan] here is the one
    object [json.decoder.NaN] that [json.loads] returns, so inside a list
    or a dict [nan] equals [nan]. *)
Fixpoint py_eq (a b : pyval) {struct a} : bool :=
  match a, b with
  | PNone, PNone => true
  | PBool x, PBool y => Bool.eqb x y
  | PBool x, PInt z => Z.b2z x =? z
  | PInt z, PBool x => z =? Z.b2z x
  | PInt x, PInt y => x =? y
  | PStr s, PStr t => String.eqb s t
  | PList l, PList m =>
      (fix go (l m : list pyval) : bool :=
         match l, m with
         | [], [] => true
         | x :: l', y :: m' => (is_nan x && is_nan y || py_eq x y) && go l' m'
         | _, _ => false
         end) l m
  | PDict d, PDict e =>
      (List.length d =? List.length e)%nat &&
      (fix go (d : pydict) : bool :=
         match d with
         | [] => true
         | (k, v) :: d' =>
             match dict_get e k with
             | Some v' => is_nan v && is_nan v' || py_eq v v'
             | None => false
             end && go d'
         end) d
  | PFloat PosInf, PFloat PosInf => true
  | PFloat NegInf, PFloat NegInf => true
  | _, _ => false
  end.

(** How a list or a dict compares two of its items. *)
Definition py_eq_item (x y : pyval) : bool :=
  is_nan x && is_nan y || py_eq x y.

(* ================================================================== *)
(** ** [json.dumps(x, sort_keys=True)]                                 *)
(* ================================================================== *)

(** [json.encoder.py_encode_basestring_ascii]: the string between double
    quotes; printable ASCII is kept, the quote and the backslash are
    escaped, and so are the characters outside [' '..'~']. *)
Definition escape_char (c : ascii) : string :=
  let n := Z.of_N (N_of_ascii c) in
  if n =? 34 then "\" ++ String c ""
  else if n =? 92 then "\\"
  else if n =? 8 then "\b"
  else if n =? 12 then "\f"
  else if n =? 10 then "\n"
  else if n =? 13 then "\r"
  else if n =? 9 then "\t"
  else if (32 <=? n) && (n <=? 126) then String c ""
  else "\u" ++ hex_of 4 n.

Fixpoint escape_string (s : string) : string :=
  match s with
  | EmptyString => ""
  | String c s' => escape_char c ++ escape_string s'
  end.

Definition dquote : string := String (ascii_of_nat 34) "".

Definition encode_basestring_ascii (s : string) : string :=
  dquote ++ escape_string s ++ dquote.

(** [repr] of an [int]. *)
Definition string_of_Z (z : Z) : string := NilZero.string_of_int (Z.to_int z).

(** [sorted(items)] by key: a stable insertion sort on the keys. *)
Section sorting.
Context {A : Type}.

Fixpoint insert_item (kv : string * A) (l : list (string * A)) : list (string * A) :=
  match l with
  | [] => [kv]
  | kv' :: l' =>
      if String.leb (fst kv) (fst kv') then kv :: l
      else kv' :: insert_item kv l'
  end.

Fixpoint sort_items (l : list (string * A)) : list (string * A) :=
  match l with
  | [] => []
  | kv :: l' => insert_item kv (sort_items l')
  end.

(** The order the sort puts items in. *)
Definition key_le (kv kv' : string * A) : Prop :=
  String.leb (fst kv) (fst kv') = true.
End sorting.

Definition render_item (kv : string * string) : string :=
  encode_basestring_ascii (fst kv) ++ ": " ++ snd kv.

(** The items of a dict are rendered where they stand and then put in key
    order, which prints the same text as sorting the items first. *)
Fixpoint json_dumps (x : pyval) : string :=
  match x with
  | PNone => "null"
  | PBool true => "true"
  | PBool false => "false"
  | PInt z => string_of_Z z
  | PStr s => encode_basestring_ascii s
  | PList l => "[" ++ String.concat ", " (map json_dumps l) ++ "]"
  | PDict d =>
      "{" ++ String.concat ", "
               (map render_item
                    (sort_items (map (fun kv => (fst kv, json_dumps (snd kv))) d)))
          ++ "}"
  | PFloat NaN => "NaN"
  | PFloat PosInf => "Infinity"
  | PFloat NegInf => "-Infinity"
  end.

(* ================================================================== *)
(** ** blockchain.py: class [Chain]                                    *)
(* ================================================================== *)

(** [Chain.hash]: SHA-256 of the JSON text of the block, keys sorted.  The
    text is pure ASCII, so [.encode()] leaves it as it is. *)
Definition hash (block : pyval) : string :=
  sha256_hexdigest (json_dumps block).
Arguments hash : simpl never.

(** A [Chain] object: its [id] and the list [_chain] of its blocks. *)
Record Chain : Type := mkChain { id : pyval; _chain : list pyval }.

(** [self._chain[-1]] *)
Definition last_block (self : Chain) : result pyval :=
  match _chain self with
  | [] => Raise IndexError
  | b :: l => Ok (last l b)
  end.

(** The value the first block is built with: [previous_hash=1]. *)
Definition GENESIS_SENTINEL : pyval := PInt 1.

(** [Chain.new_block(previous_hash, data)].  [now] is the text that
    [datetime.now().strftime(...)] returns during the call.  The block is
    bound only under [if data:], and a [**data] that is not a mapping is a
    [TypeError]; the chain is touched by the final [append] alone. *)
Definition new_block (self : Chain) (previous_hash data : pyval) (now : string)
  : result pyval * Chain :=
  match (if truthy previous_hash then Ok previous_hash
         else b <- last_block self ;; Ok (PStr (hash b))) with
  | Raise e => (Raise e, self)
  | Ok ph =>
      let header :=
        [("index", PInt (Z.of_nat (List.length (_chain self)) + 1));
         ("previous_hash", ph);
         ("timestamp", PStr now)] in
      if truthy data then
        match data with
        | PDict d =>
            let block := PDict (dict_merge header d) in
            (Ok block, mkChain (id self) (_chain self ++ [block]))
        | _ => (Raise TypeError, self)
        end
      else (Raise UnboundLocalError, self)
  end.

(** [Chain(id, data, exported)] *)
Definition Chain_init (id0 data exported : pyval) (now : string) : result Chain :=
  if truthy exported then Ok (mkChain id0 [exported])
  else
    match new_block (mkChain id0 []) GENESIS_SENTINEL data now with
    | (Ok _, self) => Ok self
    | (Raise e, _) => Raise e
    end.

(** The [while] loop of [valid_chain], from [current_index] on. *)
Fixpoint valid_chain_loop (last_blk : pyval) (rest : list pyval) : result bool :=
  match rest with
  | [] => Ok true
  | block :: rest' =>
      ph <- getitem block "previous_hash" ;;
      if negb (py_eq ph (PStr (hash last_blk))) then Ok false
      else valid_chain_loop block rest'
  end.

(** [Chain.valid_chain(chain)]; [chain[0]] is read before the loop. *)
Definition valid_chain (chain : list pyval) : result bool :=
  match chain with
  | [] => Raise IndexError
  | b0 :: rest => valid_chain_loop b0 rest
  end.

(* ================================================================== *)
(** ** blockchain.py: [Node.verify_block]                              *)
(* ================================================================== *)

Definition is_space (c : ascii) : bool :=
  let n := Z.of_N (N_of_ascii c) in
  (n =? 32) || ((9 <=? n) && (n <=? 13)).

Definition hex_value (c : ascii) : option Z :=
  let n := Z.of_N (N_of_ascii c) in
  if (48 <=? n) && (n <=? 57) then Some (n - 48)
  else if (97 <=? n) && (n <=? 102) then Some (n - 87)
  else if (65 <=? n) && (n <=? 70) then Some (n - 55)
  else None.

(** The parser of [bytes.fromhex]: white space is skipped between bytes,
    every byte is two hexadecimal digits. *)
Fixpoint fromhex_chars (cs : list ascii) : result (list Z) :=
  match cs with
  | [] => Ok []
  | c :: cs' =>
      if is_space c then fromhex_chars cs'
      else
        match hex_value c, cs' with
        | Some hi, c2 :: cs'' =>
            match hex_value c2 with
            | Some lo => bs <- fromhex_chars cs'' ;; Ok (hi * 16 + lo :: bs)
            | None => Raise ValueError
            end
        | _, _ => Raise ValueError
        end
  end.

Definition bytes_fromhex (x : pyval) : result (list Z) :=
  match x with
  | PStr s => fromhex_chars (list_ascii_of_string s)
  | _ => Raise TypeError
  end.

Definition AUTHORIZATION_MESSAGE : list Z :=
  bytes_of_string "I have authorized this transaction.".

Section Node.
(** The [cryptography] package is outside the repository: the key type,
    the DER loader (which raises on bytes that are no public key) and the
    outcome of [pubkey.verify(sig, msg, ECDSA(SHA256))] ([true] when the
    call returns, [false] when it raises) are parameters. *)
Variable public_key : Type.
Variable load_der_public_key : list Z -> result public_key.
Variable verify_returns : public_key -> list Z -> list Z -> bool.

(** [Node.verify_block(block)]: the two decoding statements stand before
    the [try]; only the [verify] call is inside it. *)
Definition verify_block (block : pyval) : result bool :=
  sig_hex <- getitem block "txsig" ;;
  txsig <- bytes_fromhex sig_hex ;;
  key_hex <- getitem block "pubkey" ;;
  key_der <- bytes_fromhex key_hex ;;
  pubkey <- load_der_public_key key_der ;;
  if verify_returns pubkey txsig AUTHORIZATION_MESSAGE then Ok true else Ok false.
End Node.

(* ================================================================== *)
(** ** library.py: class [Library]                                     *)
(* ================================================================== *)

(** A [Library] object is its list [_library] of books. *)
Definition Library : Type := list Chain.

(** [Library.add_book(new_book)] with the library after the call. *)
Definition add_book (self : Library) (new_book : Chain) : bool * Library :=
  if existsb (fun book => py_eq (id book) (id new_book)) self
  then (false, self)
  else (true, (self ++ [new_book])%list).

(** The dict literal built inside [create_exchange]. *)
Definition exchange_payload (data : pyval) : result pyval :=
  s <- getitem data "sender" ;;
  r <- getitem data "recipient" ;;
  pk <- getitem data "pubkey" ;;
  sg <- getitem data "txsig" ;;
  Ok (PDict [("sender", s); ("recipient", r); ("pubkey", pk); ("txsig", sg)]).

(** The condition of the [if] inside the loop, with its short-circuit. *)
Definition holds_book (book : Chain) (data : pyval) : result bool :=
  bid <- getitem data "book_id" ;;
  if py_eq (id book) bid then
    lb <- last_block book ;;
    rcp <- get_method lb "recipient" ;;
    s <- getitem data "sender" ;;
    Ok (py_eq rcp s)
  else Ok false.

(** The [for book in self._library] loop of [create_exchange]; the book
    that matches is replaced by itself with the new block appended. *)
Fixpoint exchange_loop (books : list Chain) (data : pyval) (now : string)
  : result bool * list Chain :=
  match books with
  | [] => (Ok false, [])
  | book :: rest =>
      match holds_book book data with
      | Raise e => (Raise e, books)
      | Ok false =>
          let (r, rest') := exchange_loop rest data now in (r, book :: rest')
      | Ok true =>
          match exchange_payload data, last_block book with
          | Raise e, _ => (Raise e, books)
          | Ok _, Raise e => (Raise e, books)
          | Ok payload, Ok lb =>
              match new_block book (PStr (hash lb)) payload now with
              | (Ok _, book') => (Ok true, book' :: rest)
              | (Raise e, book') => (Raise e, book' :: rest)
              end
          end
      end
  end.

(** [Library.create_exchange(data)] with the library after the call. *)
Definition create_exchange (self : Library) (data : pyval) (now : string)
  : result bool * Library :=
  match (s <- getitem data "sender" ;;
         r <- getitem data "recipient" ;;
         Ok (py_eq s r)) with
  | Raise e => (Raise e, self)
  | Ok true => (Ok false, self)
  | Ok false => exchange_loop self data now
  end.

(* ================================================================== *)
(** ** Requests reaching the core, and the properties under study      *)
(* ================================================================== *)

(** The two ways [app.py] changes the library: [/book/new] builds a chain
    from a genesis payload and adds it; [/book/exchange] and
    [/broadcast/block] apply a transfer.  A call that raises leaves the
    library as it was. *)
Inductive request : Type :=
| NewBook (id0 data : pyval) (now : string)
| Exchange (data : pyval) (now : string).

Definition step (lib : Library) (r : request) : Library :=
  match r with
  | NewBook id0 data now =>
      match Chain_init id0 data PNone now with
      | Ok book => snd (add_book lib book)
      | Raise _ => lib
      end
  | Exchange data now => snd (create_exchange lib data now)
  end.

Definition run (rs : list request) : Library := fold_left step rs [].

(** [blk[k] == x] evaluates to [True]. *)
Definition field_equals (blk : pyval) (k : string) (x : pyval) : Prop :=
  exists v, getitem blk k = Ok v /\ py_eq v x = true.

(** Every block after the first names the hash of the block before it. *)
Definition linked (chain : list pyval) : Prop :=
  forall i prev blk,
    nth_error chain i = Some prev ->
    nth_error chain (S i) = Some blk ->
    field_equals blk "previous_hash" (PStr (hash prev)).

(** The linkage invariant of the data model. *)
Definition chain_invariant (book : Chain) : Prop :=
  (exists b0 rest, _chain book = b0 :: rest
                   /\ field_equals b0 "previous_hash" GENESIS_SENTINEL)
  /\ linked (_chain book).

(** A genesis payload that leaves the sentinel in place: every
    [previous_hash] it carries equals the sentinel (none is the usual case). *)
Definition keeps_sentinel (data : pyval) : bool :=
  match data with
  | PDict d =>
      forallb (fun kv => negb (String.eqb (fst kv) "previous_hash")
                         || py_eq (snd kv) GENESIS_SENTINEL) d
  | _ => true
  end.

Definition request_keeps_sentinel (r : request) : bool :=
  match r with
  | NewBook _ data _ => keeps_sentinel data
  | Exchange _ _ => true
  end.

(** Dicts as Python has them: no key twice, at any depth. *)
Fixpoint nodup_keys (ks : list string) : bool :=
  match ks with
  | [] => true
  | k :: ks' => negb (existsb (String.eqb k) ks') && nodup_keys ks'
  end.

Fixpoint well_formed (x : pyval) : bool :=
  match x with
  | PList l => forallb well_formed l
  | PDict d => nodup_keys (keys d) && forallb (fun kv => well_formed (snd kv)) d
  | _ => true
  end.

(** Two values with identical contents: the same atoms, lists item by item,
    dicts key by key, whatever the order in which the keys were inserted. *)
Fixpoint same_fields (a b : pyval) {struct a} : bool :=
  match a, b with
  | PNone, PNone => true
  | PBool x, PBool y => Bool.eqb x y
  | PInt x, PInt y => x =? y
  | PStr s, PStr t => String.eqb s t
  | PList l, PList m =>
      (fix go (l m : list pyval) : bool :=
         match l, m with
         | [], [] => true
         | x :: l', y :: m' => same_fields x y && go l' m'
         | _, _ => false
         end) l m
  | PDict d, PDict e =>
      (List.length d =? List.length e)%nat &&
      (fix go (d : pydict) : bool :=
         match d with
         | [] => true
         | (k, v) :: d' =>
             match dict_get e k with
             | Some v' => same_fields v v'
             | None => false
             end && go d'
         end) d
  | PFloat NaN, PFloat NaN => true
  | PFloat PosInf, PFloat PosInf => true
  | PFloat NegInf, PFloat NegInf => true
  | _, _ => false
  end.

(** A lowercase hexadecimal digest of 256 bits. *)
Definition is_lower_hex (s : string) : bool :=
  forallb (fun c => existsb (Ascii.eqb c) hex_digits) (list_ascii_of_string s).

Definition is_hex_digest (s : string) : bool :=
  (String.length s =? 64)%nat && is_lower_hex s.

(** The block a transfer appends to [book]: the header of [new_block]
    followed by the four fields taken from the request. *)
Definition transfer_block (book : Chain) (lb s r pk sg : pyval) (now : string)
  : pyval :=
  PDict [("index", PInt (Z.of_nat (List.length (_chain book)) + 1));
         ("previous_hash", PStr (hash lb));
         ("timestamp", PStr now);
         ("sender", s); ("recipient", r); ("pubkey", pk); ("txsig", sg)].

(** The outcome of a transfer on the list of books: either nothing moved,
    or one book got the transfer block. *)
Inductive transferred (data : pyval) (now : string) (books books' : list Chain) : Prop :=
| Transferred pre book post lb bid s r pk sg :
    books = (pre ++ book :: post)%list ->
    Forall (fun b => holds_book b data = Ok false) pre ->
    holds_book book data = Ok true ->
    getitem data "book_id" = Ok bid -> py_eq (id book) bid = true ->
    last_block book = Ok lb ->
    getitem data "sender" = Ok s -> getitem data "recipient" = Ok r ->
    getitem data "pubkey" = Ok pk -> getitem data "txsig" = Ok sg ->
    books' = (pre ++ mkChain (id book)
                       (_chain book ++ [transfer_block book lb s r pk sg now])
                  :: post)%list ->
    transferred data now books books'.

(* ================================================================== *)
(** ** blockchain.py: addresses and signatures of a [Node]             *)
(* ================================================================== *)

(** A [bytes] object: a list of integers below 256. *)
Definition is_bytes (bs : list Z) : bool :=
  forallb (fun b => (0 <=? b) && (b <? 256)) bs.

(** [bs.hex()]: two lowercase digits per byte. *)
Fixpoint bytes_hex (bs : list Z) : string :=
  match bs with
  | [] => ""
  | b :: bs' => hex_of 2 b ++ bytes_hex bs'
  end.

(** [h = hashes.Hash(hashes.SHA256()); h.update(bs); h.finalize().hex()] *)
Definition sha256_hex_of_bytes (bs : list Z) : string :=
  String.concat "" (map (hex_of 8) (SHA256.state_words (SHA256.digest bs))).

(** [Node.verify_addr(addr, pubkey)] *)
Definition verify_addr (addr pubkey : pyval) : result bool :=
  sender_public_bytes <- bytes_fromhex pubkey ;;
  if py_eq (PStr (sha256_hex_of_bytes sender_public_bytes)) addr
  then Ok true else Ok false.

Section NodeIdentity.
(** The key pair of the node lives in the [cryptography] package.  What the
    methods below read of it are parameters: the DER serialization of the
    public key, and the signature that [_private_key.sign] returns for a
    message. *)
Variable public_bytes : list Z.
Variable sign : list Z -> list Z.

(** [Node.generate_signature(data)] *)
Definition generate_signature (data : pyval) : result pyval :=
  msg <- bytes_fromhex data ;;
  Ok (PStr (bytes_hex (sign msg))).

(** [Node.generate_transaction_addr()] *)
Definition generate_transaction_addr : pyval * pyval :=
  (PStr (sha256_hex_of_bytes public_bytes), PStr (bytes_hex public_bytes)).
End NodeIdentity.

(* ================================================================== *)
(** ** library.py: [fetch_book]                                        *)
(* ================================================================== *)

(** [Library.fetch_book(req)]: the first book with an equal id; falling off
    the loop returns [None]. *)
Definition fetch_book (self : Library) (req : pyval) : option Chain :=
  find (fun book => py_eq (id book) req) self.

(* ================================================================== *)
(** ** app.py: what the routes do to the library                       *)
(* ================================================================== *)

(** The routes are modelled from the decoded request body on: [values] is
    what [request.get_json()] returned, the result is the value the view
    returns with its status code, or the exception that leaves the view,
    and the library after the call. *)
Module app.

Record response : Type := mkResponse { body : pyval; status : Z }.

Section routes.
Variable public_bytes : list Z.
Variable sign : list Z -> list Z.

(** The neighbours are other processes.  [neighbors] is [node.neighbors]
    in the order the [for] loop visits it; [post url body] tells whether
    [requests.post(url, json=body)] returns ([None]; the response is not
    looked at) or raises; [str_of x] is the text an f-string prints for
    [x], for a [str] the string itself. *)
Variable neighbors : list string.
Variable post : string -> pyval -> option exn.
Variable str_of : pyval -> string.

(** A [for] loop of posts: the first one that raises ends it. *)
Fixpoint post_each (requests : list (string * pyval)) : option exn :=
  match requests with
  | [] => None
  | (url, json) :: rest =>
      match post url json with
      | Some e => Some e
      | None => post_each rest
      end
  end.

(** The posts of [/book/new]. *)
Definition book_posts (book_id blk : pyval) : list (string * pyval) :=
  map (fun neighbor =>
         ("http://" ++ neighbor ++ "/broadcast/book/" ++ str_of book_id, blk))
      neighbors.

(** The posts of [/book/exchange]. *)
Definition block_posts (data : pyval) : list (string * pyval) :=
  map (fun neighbor => ("http://" ++ neighbor ++ "/broadcast/block", data))
      neighbors.

(** [/book/new]: the book is in the library before the first post. *)
Definition new_book (library : Library) (values : pyval) (now : string)
  : result response * Library :=
  match getitem values "book_id" with
  | Raise e => (Raise e, library)
  | Ok book_id =>
      let address := fst (generate_transaction_addr public_bytes) in
      match Chain_init book_id
                       (PDict [("sender", PNone); ("recipient", address)])
                       PNone now with
      | Raise e => (Raise e, library)
      | Ok book =>
          match add_book library book with
          | (true, library') =>
              match last_block book with
              | Raise e => (Raise e, library')
              | Ok blk =>
                  match post_each (book_posts book_id blk) with
                  | Some e => (Raise e, library')
                  | None => (Ok (mkResponse blk 200), library')
                  end
              end
          | (false, library') =>
              (Ok (mkResponse
                     (PDict [("error", PStr "This book must already exist.")])
                     400),
               library')
          end
      end
  end.

(** [/book/chain/] *)
Definition book_chain (library : Library) (values : pyval) : result response :=
  book_id <- getitem values "book_id" ;;
  match fetch_book library book_id with
  | Some book => Ok (mkResponse (PList (_chain book)) 200)
  | None => Raise AttributeError
  end.

(** The dict that [/book/exchange] builds from the request. *)
Definition transaction_data (values : pyval) : result pyval :=
  let (address, pub_key) := generate_transaction_addr public_bytes in
  recipient <- getitem values "recipient" ;;
  book_id <- getitem values "book_id" ;;
  txsig <- generate_signature sign (PStr (bytes_hex AUTHORIZATION_MESSAGE)) ;;
  Ok (PDict [("book_id", book_id); ("sender", address);
             ("recipient", recipient); ("pubkey", pub_key); ("txsig", txsig)]).

(** [/book/exchange]: the block is in the chain before the first post. *)
Definition new_transaction (library : Library) (values : pyval) (now : string)
  : result response * Library :=
  match transaction_data values with
  | Raise e => (Raise e, library)
  | Ok data =>
      match create_exchange library data now with
      | (Raise e, library') => (Raise e, library')
      | (Ok true, library') =>
          match post_each (block_posts data) with
          | Some e => (Raise e, library')
          | None => (Ok (mkResponse data 200), library')
          end
      | (Ok false, library') =>
          (Ok (mkResponse (PStr "Something went wrong") 200), library')
      end
  end.
End routes.

(** [/broadcast/block] *)
Definition broadcast_block (library : Library) (block : pyval) (now : string)
  : result response * Library :=
  match create_exchange library block now with
  | (Raise e, library') => (Raise e, library')
  | (Ok _, library') => (Ok (mkResponse (PStr "Success!") 200), library')
  end.

(** [/broadcast/book/<book_id>] *)
Definition broadcast_book (library : Library) (book_id : string) (req : pyval)
  (now : string) : result response * Library :=
  match Chain_init (PStr book_id) PNone req now with
  | Raise e => (Raise e, library)
  | Ok book =>
      (Ok (mkResponse (PStr "Success!") 200), snd (add_book library book))
  end.

End app.

(* ================================================================== *)
(** ** Further properties under study                                  *)
(* ================================================================== *)

(** Every way the code changes a library: a chain is constructed, from a
    payload or from an exported block, and offered to [add_book]; or a
    transfer is applied.  A call that raises changes nothing. *)
Inductive library_call : Type :=
| AddChain (id0 data exported : pyval) (now : string)
| ApplyExchange (data : pyval) (now : string).

Definition call_step (lib : Library) (c : library_call) : Library :=
  match c with
  | AddChain id0 data exported now =>
      match Chain_init id0 data exported now with
      | Ok book => snd (add_book lib book)
      | Raise _ => lib
      end
  | ApplyExchange data now => snd (create_exchange lib data now)
  end.

Definition calls (cs : list library_call) : Library := fold_left call_step cs [].

(** [R] relates every block to the block after it. *)
Definition adjacent (R : pyval -> pyval -> Prop) (chain : list pyval) : Prop :=
  forall i prev blk,
    nth_error chain i = Some prev ->
    nth_error chain (S i) = Some blk ->
    R prev blk.

(** The sender of [blk] is the holder recorded in [prev], and [blk] hands
    the book to somebody else. *)
Definition custody_handover (prev blk : pyval) : Prop :=
  exists holder s r,
    get_method prev "recipient" = Ok holder
    /\ getitem blk "sender" = Ok s /\ getitem blk "recipient" = Ok r
    /\ py_eq holder s = true /\ py_eq s r = false.

(** Every block after the first carries its position, counted from 1. *)
Definition later_blocks_numbered (chain : list pyval) : Prop :=
  forall i blk,
    nth_error chain (S i) = Some blk ->
    getitem blk "index" = Ok (PInt (Z.of_nat (S i) + 1)).

(** No book has the id of a book that stands before it. *)
Definition distinct_ids (lib : Library) : Prop :=
  forall i j bi bj,
    (i < j)%nat -> nth_error lib i = Some bi -> nth_error lib j = Some bj ->
    py_eq (id bi) (id bj) = false.



(** [book'] is [book] with blocks added at the end. *)
Definition extends_book (book book' : Chain) : Prop :=
  id book' = id book /\ exists more, _chain book' = (_chain book ++ more)%list.

(** Every book of [lib] is still at its place in [lib'], under the same id
    and with its chain prolonged at the end. *)
Definition grows (lib lib' : Library) : Prop :=
  forall i book,
    nth_error lib i = Some book ->
    exists book', nth_error lib' i = Some book' /\ extends_book book book'.

(* ================================================================== *)
(** ** Lemmas on strings, sorting and dicts                            *)
(* ================================================================== *)

(** The digest function agrees with the published test vectors. *)
Example sha256_empty :
  sha256_hexdigest "" = "e3b0c44298fc1c149afbf4c8996fb92427ae41e4649b934ca495991b7852b855".
Proof. vm_compute. reflexivity. Qed.

Example sha256_abc :
  sha256_hexdigest "abc" = "ba7816bf8f01cfea414140de5dae2223b00361a396177a9cb410ff61f20015ad".
Proof. vm_compute. reflexivity. Qed.

Example sha256_two_blocks :
  sha256_hexdigest "abcdbcdecdefdefgefghfghighijhijkijkljklmklmnlmnomnopnopq"
  = "248d6a61d20638b8e5c026930c3e6039a33ce45964ff2167f6ecedd419db06c1".
Proof. vm_compute. reflexivity. Qed.

Lemma ascii_compare_trans c1 c2 c3 :
  Ascii.compare c1 c2 = Lt -> Ascii.compare c2 c3 = Lt -> Ascii.compare c1 c3 = Lt.
Proof.
  unfold Ascii.compare. rewrite !N.compare_lt_iff. apply N.lt_trans.
Qed.

Lemma string_compare_trans s1 :
  forall s2 s3,
    String.compare s1 s2 = Lt -> String.compare s2 s3 = Lt ->
    String.compare s1 s3 = Lt.
Proof.
  induction s1 as [|c1 s1 IH]; intros [|c2 s2] [|c3 s3]; simpl; try congruence.
  destruct (Ascii.compare c1 c2) eqn:E12; try discriminate;
    destruct (Ascii.compare c2 c3) eqn:E23; try discriminate; intros H12 H23.
  - apply Ascii.compare_eq_iff in E12, E23. subst.
    rewrite (proj2 (N.compare_eq_iff _ _) eq_refl : Ascii.compare c3 c3 = Eq).
    eauto.
  - apply Ascii.compare_eq_iff in E12. subst. now rewrite E23.
  - apply Ascii.compare_eq_iff in E23. subst. now rewrite E12.
  - now rewrite (ascii_compare_trans _ _ _ E12 E23).
Qed.

Lemma string_compare_refl s : String.compare s s = Eq.
Proof.
  induction s as [|c s IH]; simpl; auto.
  now rewrite (proj2 (N.compare_eq_iff _ _) eq_refl : Ascii.compare c c = Eq).
Qed.

Lemma string_leb_trans s1 s2 s3 :
  String.leb s1 s2 = true -> String.leb s2 s3 = true -> String.leb s1 s3 = true.
Proof.
  unfold String.leb.
  destruct (String.compare s1 s2) eqn:E12; try discriminate;
    destruct (String.compare s2 s3) eqn:E23; try discriminate; intros _ _.
  - apply String.compare_eq_iff in E12, E23. subst. now rewrite string_compare_refl.
  - apply String.compare_eq_iff in E12. subst. now rewrite E23.
  - apply String.compare_eq_iff in E23. subst. now rewrite E12.
  - now rewrite (string_compare_trans _ _ _ E12 E23).
Qed.

Section sorting_facts.
Context {A : Type}.
Implicit Types (l : list (string * A)) (kv : string * A).

Lemma insert_item_perm kv l : Permutation (insert_item kv l) (kv :: l).
Proof.
  induction l as [|kv' l IH]; simpl; auto.
  destruct (String.leb (fst kv) (fst kv')); auto.
  rewrite IH. apply perm_swap.
Qed.

Lemma sort_items_perm l : Permutation (sort_items l) l.
Proof.
  induction l as [|kv l IH]; simpl; auto.
  rewrite insert_item_perm. now constructor.
Qed.

Lemma insert_item_sorted kv l :
  StronglySorted key_le l -> StronglySorted key_le (insert_item kv l).
Proof.
  induction 1 as [|kv' l Hs IH Hall]; simpl.
  - repeat constructor.
  - destruct (String.leb (fst kv) (fst kv')) eqn:E.
    + constructor; [now constructor|].
      constructor; auto.
      eapply Forall_impl; [|exact Hall].
      intros x Hx. unfold key_le in *. eapply string_leb_trans; eauto.
    + constructor; auto.
      eapply Permutation_Forall; [symmetry; apply insert_item_perm|].
      constructor; auto.
      unfold key_le. destruct (String.leb_total (fst kv) (fst kv')); congruence.
Qed.

Lemma sort_items_sorted l : StronglySorted key_le (sort_items l).
Proof.
  induction l; simpl; [constructor|now apply insert_item_sorted].
Qed.

(** A key-sorted list without repeated keys is determined by its items. *)
Lemma sorted_perm_unique l1 :
  forall l2,
    StronglySorted key_le l1 -> StronglySorted key_le l2 ->
    NoDup (map fst l1) -> Permutation l1 l2 -> l1 = l2.
Proof.
  induction l1 as [|a l1 IH]; intros l2 S1 S2 ND HP.
  - now apply Permutation_nil in HP.
  - destruct l2 as [|b l2].
    { symmetry in HP. now apply Permutation_nil in HP. }
    apply StronglySorted_inv in S1 as [S1 F1].
    apply StronglySorted_inv in S2 as [S2 F2].
    inversion ND as [|? ? Hnin ND']; subst.
    assert (Hab : a = b).
    { assert (Ha : In a (b :: l2)) by (eapply Permutation_in; [exact HP|now left]).
      assert (Hb : In b (a :: l1))
        by (eapply Permutation_in; [symmetry; exact HP|now left]).
      destruct Ha as [->|Ha]; auto. destruct Hb as [->|Hb]; auto.
      rewrite Forall_forall in F1, F2.
      exfalso. apply Hnin.
      rewrite (String.leb_antisym _ _ (F1 _ Hb) (F2 _ Ha)).
      now apply in_map. }
    subst b. f_equal.
    apply IH; auto. eapply Permutation_cons_inv; eauto.
Qed.

Lemma sort_items_canonical l1 l2 :
  NoDup (map fst l1) -> Permutation l1 l2 -> sort_items l1 = sort_items l2.
Proof.
  intros ND HP.
  apply sorted_perm_unique; auto using sort_items_sorted.
  - eapply Permutation_NoDup; [|exact ND].
    apply Permutation_map. symmetry. apply sort_items_perm.
  - rewrite sort_items_perm, HP. symmetry. apply sort_items_perm.
Qed.
End sorting_facts.

(** *** Dicts *)

Lemma dict_get_In d k v : dict_get d k = Some v -> In (k, v) d.
Proof.
  induction d as [|[k' v'] d IH]; simpl; [discriminate|].
  destruct (String.eqb_spec k' k) as [->|]; intros H.
  - injection H as ->. now left.
  - right. auto.
Qed.

Lemma dict_get_None d k : dict_get d k = None <-> ~ In k (keys d).
Proof.
  induction d as [|[k' v'] d IH]; simpl; [tauto|].
  destruct (String.eqb_spec k' k) as [->|Hne].
  - split; [discriminate|]. intros H. exfalso. apply H. now left.
  - rewrite IH. split; [intros H [?|?]; [congruence|auto]|tauto].
Qed.

Lemma In_dict_get d k v :
  NoDup (keys d) -> In (k, v) d -> dict_get d k = Some v.
Proof.
  induction d as [|[k' v'] d IH]; simpl; [tauto|].
  intros ND [E|Hin].
  - injection E as -> ->. now rewrite String.eqb_refl.
  - inversion ND as [|? ? Hnin ND']; subst.
    destruct (String.eqb_spec k' k) as [->|]; auto.
    exfalso. apply Hnin. change k with (fst (k, v)). now apply in_map.
Qed.

Lemma dict_get_set d k v k' :
  dict_get (dict_set d k v) k' = if String.eqb k k' then Some v else dict_get d k'.
Proof.
  induction d as [|[k0 v0] d IH]; simpl.
  - reflexivity.
  - destruct (String.eqb_spec k0 k) as [->|Hne]; simpl.
    + destruct (String.eqb_spec k k'); auto.
    + rewrite IH. destruct (String.eqb_spec k0 k') as [->|]; auto.
      destruct (String.eqb_spec k k'); congruence.
Qed.

Lemma keys_dict_set_in d k v : In k (keys d) -> keys (dict_set d k v) = keys d.
Proof.
  induction d as [|[k0 v0] d IH]; simpl; [tauto|].
  destruct (String.eqb_spec k0 k) as [->|Hne]; simpl; auto.
  intros [?|Hin]; [congruence|]. f_equal. auto.
Qed.

Lemma keys_dict_set_notin d k v :
  ~ In k (keys d) -> keys (dict_set d k v) = (keys d ++ [k])%list.
Proof.
  induction d as [|[k0 v0] d IH]; simpl; auto.
  destruct (String.eqb_spec k0 k) as [->|Hne]; simpl; [tauto|].
  intros H. f_equal. apply IH. tauto.
Qed.

(** What [{**a, **b}] holds under a key. *)
Lemma dict_get_merge_notin b : forall a k,
  ~ In k (keys b) -> dict_get (dict_merge a b) k = dict_get a k.
Proof.
  unfold dict_merge.
  induction b as [|[k0 v0] b IH]; simpl; intros a k Hk; auto.
  rewrite IH by tauto. rewrite dict_get_set.
  destruct (String.eqb_spec k0 k); auto. tauto.
Qed.

Lemma dict_get_merge_in b : forall a k v,
  NoDup (keys b) -> In (k, v) b -> dict_get (dict_merge a b) k = Some v.
Proof.
  unfold dict_merge.
  induction b as [|[k0 v0] b IH]; simpl; intros a k v ND Hin; [tauto|].
  inversion ND as [|? ? Hnin ND']; subst.
  destruct Hin as [E|Hin].
  - injection E as -> ->.
    rewrite (dict_get_merge_notin b _ k Hnin : dict_get (fold_left _ b _) k = _).
    rewrite dict_get_set. now rewrite String.eqb_refl.
  - now apply IH.
Qed.

Lemma nodup_keys_spec ks : nodup_keys ks = true <-> NoDup ks.
Proof.
  induction ks as [|k ks IH]; simpl.
  - split; [constructor|reflexivity].
  - rewrite andb_true_iff, negb_true_iff, IH. split.
    + intros [Hn ND]. constructor; auto.
      intros Hin.
      assert (existsb (String.eqb k) ks = true)
        by (apply existsb_exists; exists k; split; [auto|apply String.eqb_refl]).
      congruence.
    + intros ND. inversion ND as [|? ? Hnin ND']; subst. split; auto.
      destruct (existsb (String.eqb k) ks) eqn:E; auto.
      apply existsb_exists in E as (x & Hx & Hk).
      apply String.eqb_eq in Hk. subst. tauto.
Qed.

(** *** Python equality *)

Lemma py_eq_str v s : py_eq v (PStr s) = true <-> v = PStr s.
Proof.
  destruct v as [| | | | | |[| |]]; simpl; split; try discriminate.
  - intros H. apply String.eqb_eq in H. now subst.
  - intros H. injection H as ->. apply String.eqb_refl.
Qed.

(** An item equals itself in a list or a dict, [nan] included. *)
Lemma py_eq_item_refl : forall x, well_formed x = true -> py_eq_item x x = true.
Proof.
  unfold py_eq_item.
  induction x as [| b | z | s | l IH | d IH | f] using pyval_nested_ind;
    simpl; intros WF; auto.
  - now destruct b.
  - apply Z.eqb_refl.
  - apply String.eqb_refl.
  - induction IH as [|x l Hx _ IHl]; simpl in *; auto.
    apply andb_true_iff in WF as [W1 W2]. rewrite Hx by auto. simpl. auto.
  - rewrite Nat.eqb_refl. simpl.
    apply andb_true_iff in WF as [ND WF]. apply nodup_keys_spec in ND.
    assert (Hsub : forall k v, In (k, v) d -> dict_get d k = Some v)
      by (intros; now apply In_dict_get).
    clear ND. revert Hsub.
    set (e := d) at 2 3. clearbody e.
    induction IH as [|[k v] d' Hx _ IHd]; simpl in *; intros Hsub; auto.
    apply andb_true_iff in WF as [W1 W2].
    rewrite (Hsub k v) by now left.
    rewrite Hx by auto. simpl. apply IHd; auto.
  - now destruct f.
Qed.

(** [x == x] for every value that has no key twice, [nan] itself apart. *)
Lemma py_eq_refl x :
  well_formed x = true -> is_nan x = false -> py_eq x x = true.
Proof.
  intros WF Hnan. pose proof (py_eq_item_refl x WF) as H.
  unfold py_eq_item in H. now rewrite Hnan in H.
Qed.

(** *** Python equality is symmetric and transitive *)

Lemma py_eq_nan_l x : py_eq (PFloat NaN) x = false.
Proof. now destruct x as [| | | | | |[| |]]. Qed.

Lemma py_eq_nan_r x : py_eq x (PFloat NaN) = false.
Proof. now destruct x as [| | | | | |[| |]]. Qed.

Lemma is_nan_spec x : is_nan x = true <-> x = PFloat NaN.
Proof.
  destruct x as [| | | | | |[| |]]; simpl; split; congruence.
Qed.

Lemma py_eq_list l m :
  py_eq (PList l) (PList m) = true
  <-> Forall2 (fun x y => py_eq_item x y = true) l m.
Proof.
  unfold py_eq_item.
  revert m. induction l as [|x l IH]; intros [|y m]; simpl.
  - split; [constructor|reflexivity].
  - split; [discriminate|intros H; inversion H].
  - split; [discriminate|intros H; inversion H].
  - rewrite andb_true_iff. specialize (IH m). simpl in IH. rewrite IH.
    split; [intros []; now constructor|intros H; inversion H; auto].
Qed.

Lemma py_eq_dict d e :
  py_eq (PDict d) (PDict e) = true
  <-> List.length d = List.length e
      /\ forall k v, In (k, v) d ->
           exists v', dict_get e k = Some v' /\ py_eq_item v v' = true.
Proof.
  unfold py_eq_item.
  simpl. rewrite andb_true_iff, Nat.eqb_eq.
  apply and_iff_compat_l.
  induction d as [|[k v] d IH]; simpl.
  - split; [intros _ ? ? []|reflexivity].
  - rewrite andb_true_iff, IH. split.
    + intros [Hk Hd] k0 v0 [E|Hin]; [|auto].
      injection E as <- <-.
      destruct (dict_get e k) as [v'|]; [eauto|discriminate].
    + intros H. split; [|intros; apply H; auto].
      destruct (H k v (or_introl eq_refl)) as (v' & -> & Hv). exact Hv.
Qed.

Lemma well_formed_dict d :
  well_formed (PDict d) = true
  <-> NoDup (keys d) /\ forall k v, In (k, v) d -> well_formed v = true.
Proof.
  simpl. rewrite andb_true_iff, nodup_keys_spec, forallb_forall.
  apply and_iff_compat_l. split.
  - intros H k v Hin. apply (H (k, v) Hin).
  - intros H [k v] Hin. apply (H k v Hin).
Qed.

Lemma py_eq_item_trans x :
  (forall b c, py_eq x b = true -> py_eq b c = true -> py_eq x c = true) ->
  forall y z,
    py_eq_item x y = true -> py_eq_item y z = true -> py_eq_item x z = true.
Proof.
  unfold py_eq_item. intros IH y z Hxy Hyz.
  apply orb_true_iff in Hxy as [Hxy|Hxy].
  - apply andb_true_iff in Hxy as [Hx Hy].
    apply is_nan_spec in Hy. subst y. rewrite py_eq_nan_l in Hyz.
    rewrite orb_false_r in Hyz. apply andb_true_iff in Hyz as [_ Hz].
    now rewrite Hx, Hz.
  - assert (Hy : is_nan y = false).
    { destruct (is_nan y) eqn:E; [|reflexivity].
      apply is_nan_spec in E. subst y. now rewrite py_eq_nan_r in Hxy. }
    rewrite Hy in Hyz. simpl in Hyz.
    rewrite (IH y z Hxy Hyz). apply orb_true_r.
Qed.

Lemma py_eq_item_sym x :
  (forall b, well_formed x = true -> well_formed b = true ->
             py_eq x b = true -> py_eq b x = true) ->
  forall y, well_formed x = true -> well_formed y = true ->
            py_eq_item x y = true -> py_eq_item y x = true.
Proof.
  unfold py_eq_item. intros IH y WFx WFy H.
  apply orb_true_iff in H as [H|H].
  - apply andb_true_iff in H as [Hx Hy]. now rewrite Hx, Hy.
  - rewrite (IH y WFx WFy H). apply orb_true_r.
Qed.

Lemma py_eq_trans : forall a b c,
  py_eq a b = true -> py_eq b c = true -> py_eq a c = true.
Proof.
  induction a as [| x | x | s | l IH | d IH | f] using pyval_nested_ind;
    [| | | | | |destruct f];
    intros [| y | y | t | m | e | [| |]] [| z | z | u | n | g | [| |]] Hab Hbc;
    try discriminate; auto.
  all: try solve
    [ simpl in *; rewrite ?Z.eqb_eq in *;
      repeat match goal with
             | H : Bool.eqb _ _ = true |- _ => apply Bool.eqb_prop in H
             | H : String.eqb _ _ = true |- _ => apply String.eqb_eq in H
             end;
      subst; rewrite ?String.eqb_refl;
      repeat match goal with b : bool |- _ => destruct b end;
      simpl in *; try reflexivity; lia ].
  - apply py_eq_list in Hab, Hbc. apply py_eq_list.
    revert n Hbc. induction Hab as [|x y l m Hxy Hlm IHl]; intros n Hbc.
    + inversion Hbc. constructor.
    + inversion Hbc as [|? z ? n' Hyz Hmn]; subst.
      inversion IH as [|? ? Hx IH']; subst.
      constructor; [eapply py_eq_item_trans; eauto|apply IHl; auto].
  - apply py_eq_dict in Hab as [Lab Hab], Hbc as [Lbc Hbc]. apply py_eq_dict.
    split; [congruence|]. intros k v Hin.
    destruct (Hab k v Hin) as (v' & Hget & Hv).
    destruct (Hbc k v' (dict_get_In _ _ _ Hget)) as (v'' & Hget' & Hv').
    exists v''. split; auto.
    rewrite Forall_forall in IH.
    apply (py_eq_item_trans v (IH (k, v) Hin) v' v''); auto.
Qed.

Lemma py_eq_sym : forall a b,
  well_formed a = true -> well_formed b = true ->
  py_eq a b = true -> py_eq b a = true.
Proof.
  induction a as [| x | x | s | l IH | d IH | f] using pyval_nested_ind;
    [| | | | | |destruct f];
    intros [| y | y | t | m | e | [| |]] WFa WFb H; try discriminate; auto.
  all: try solve
    [ simpl in *; rewrite ?Z.eqb_eq in *;
      repeat match goal with
             | H : Bool.eqb _ _ = true |- _ => apply Bool.eqb_prop in H
             | H : String.eqb _ _ = true |- _ => apply String.eqb_eq in H
             end;
      subst; rewrite ?String.eqb_refl;
      repeat match goal with b : bool |- _ => destruct b end;
      simpl in *; try reflexivity; lia ].
  - apply py_eq_list in H. apply py_eq_list.
    simpl in WFa, WFb. rewrite forallb_forall in WFa, WFb.
    induction H as [|x y l m Hxy Hlm IHl]; constructor.
    + inversion IH; subst.
      apply py_eq_item_sym; auto; [apply WFa|apply WFb]; now left.
    + inversion IH; subst. apply IHl; auto.
      * intros z Hz. apply WFa. now right.
      * intros z Hz. apply WFb. now right.
  - apply py_eq_dict in H as [Hlen H]. apply py_eq_dict.
    apply well_formed_dict in WFa as [NDd WFd], WFb as [NDe WFe].
    split; [congruence|]. intros k v' Hin.
    assert (Hincl : incl (keys e) (keys d)).
    { apply NoDup_length_incl; auto.
      - unfold keys. rewrite !length_map. lia.
      - intros k0 Hk0. apply in_map_iff in Hk0 as ([k1 v1] & <- & Hin1).
        destruct (H k1 v1 Hin1) as (v2 & Hget & _).
        apply dict_get_In in Hget. exact (in_map fst e (k1, v2) Hget). }
    assert (Hk : In k (keys d)) by (apply Hincl; exact (in_map fst e (k, v') Hin)).
    apply in_map_iff in Hk as ([k1 v] & Hk1 & Hin1). simpl in Hk1. subst k1.
    exists v. split; [now apply In_dict_get|].
    destruct (H k v Hin1) as (v2 & Hget & Hv).
    rewrite (In_dict_get e k v' NDe Hin) in Hget. injection Hget as <-.
    rewrite Forall_forall in IH.
    apply (py_eq_item_sym v (IH (k, v) Hin1)); eauto.
Qed.

(** *** Serialization *)

Definition dumps_item (kv : string * pyval) : string * string :=
  (fst kv, json_dumps (snd kv)).

Lemma json_dumps_dict d :
  json_dumps (PDict d)
  = "{" ++ String.concat ", " (map render_item (sort_items (map dumps_item d))) ++ "}".
Proof. reflexivity. Qed.

(** Values with identical contents print the same JSON text. *)
Lemma json_dumps_same_fields : forall a b,
  well_formed a = true -> same_fields a b = true -> json_dumps a = json_dumps b.
Proof.
  induction a as [| x | x | s | l IH | d IH | f] using pyval_nested_ind;
    intros b WF H.
  7:{ destruct f, b as [| | | | | |[| |]]; simpl in H; try discriminate;
      reflexivity. }
  all: destruct b as [| y | y | t | m | e | g]; simpl in H; try discriminate;
    auto.
  - apply Bool.eqb_prop in H. now subst.
  - apply Z.eqb_eq in H. now subst.
  - apply String.eqb_eq in H. now subst.
  - simpl. do 3 f_equal.
    simpl in WF. revert m H.
    induction IH as [|x l Hx _ IHl]; intros [|y m] H; try discriminate; auto.
    simpl in WF. apply andb_true_iff in WF as [W1 W2].
    apply andb_true_iff in H as [H1 H2].
    simpl. f_equal; auto.
  - rewrite !json_dumps_dict. do 4 f_equal.
    simpl in WF. apply andb_true_iff in WF as [ND WF].
    apply nodup_keys_spec in ND.
    apply andb_true_iff in H as [Hlen H]. apply Nat.eqb_eq in Hlen.
    assert (Hfst : forall d0, map fst (map dumps_item d0) = keys d0)
      by (intros d0; unfold keys; rewrite map_map; reflexivity).
    apply sort_items_canonical; [now rewrite Hfst|].
    apply NoDup_Permutation_bis.
    + eapply NoDup_map_inv. rewrite Hfst. exact ND.
    + rewrite !length_map. lia.
    + clear ND Hlen. intros kv Hin.
      induction IH as [|[k v] d' Hx _ IHd]; simpl in *; [tauto|].
      apply andb_true_iff in WF as [W1 W2].
      apply andb_true_iff in H as [H1 H2].
      destruct Hin as [<-|Hin]; auto.
      destruct (dict_get e k) as [v'|] eqn:Hget; [|discriminate].
      unfold dumps_item at 1. simpl. rewrite (Hx v' W1 H1).
      change (k, json_dumps v') with (dumps_item (k, v')).
      apply in_map. now apply dict_get_In.
Qed.

(** *** Hexadecimal text *)

Lemma hex_digit_lower n : existsb (Ascii.eqb (hex_digit n)) hex_digits = true.
Proof.
  unfold hex_digit.
  assert (H : (Z.to_nat (n mod 16) < 16)%nat)
    by (pose proof (Z.mod_pos_bound n 16); lia).
  revert H. generalize (Z.to_nat (n mod 16)) as i. intros i H.
  do 16 (destruct i as [|i]; [reflexivity|]). lia.
Qed.

Lemma is_lower_hex_app s t :
  is_lower_hex (s ++ t) = is_lower_hex s && is_lower_hex t.
Proof.
  unfold is_lower_hex.
  assert (H : list_ascii_of_string (s ++ t)
              = (list_ascii_of_string s ++ list_ascii_of_string t)%list)
    by (induction s as [|c s IH]; cbn [append list_ascii_of_string app]; congruence).
  rewrite H. apply forallb_app.
Qed.

Lemma hex_of_lower len n : is_lower_hex (hex_of len n) = true.
Proof.
  induction len as [|len IH]; [reflexivity|].
  unfold is_lower_hex in *. cbn [hex_of list_ascii_of_string forallb].
  now rewrite hex_digit_lower, IH.
Qed.

Lemma hex_of_length len n : String.length (hex_of len n) = len.
Proof. induction len; simpl; auto. Qed.

Lemma string_length_app s t :
  String.length (s ++ t) = (String.length s + String.length t)%nat.
Proof. induction s; simpl; auto. Qed.

(** [hexdigest] always is 64 lowercase hexadecimal digits. *)
Lemma sha256_hexdigest_hex s : is_hex_digest (sha256_hexdigest s) = true.
Proof.
  unfold sha256_hexdigest, is_hex_digest.
  generalize (SHA256.digest (bytes_of_string s)) as st. intros [a b c d e f g h].
  unfold SHA256.state_words. cbn [SHA256.sa SHA256.sb SHA256.sc SHA256.sd
    SHA256.se SHA256.sf SHA256.sg SHA256.sh map String.concat].
  change (append "" ?x) with x.
  rewrite !is_lower_hex_app, !string_length_app, !hex_of_lower, !hex_of_length.
  reflexivity.
Qed.

(* ================================================================== *)
(** ** Lemmas on chains and on the library                             *)
(* ================================================================== *)

Lemma linked_single b : linked [b].
Proof.
  intros i prev blk H1 H2. destruct i as [|[|i]]; discriminate.
Qed.

Lemma linked_cons a b l :
  linked (a :: b :: l)
  <-> field_equals b "previous_hash" (PStr (hash a)) /\ linked (b :: l).
Proof.
  split.
  - intros H. split.
    + apply (H 0%nat a b); reflexivity.
    + intros i prev blk H1 H2. apply (H (S i) prev blk); assumption.
  - intros [Hb Hl] [|i] prev blk H1 H2.
    + simpl in H1, H2. injection H1 as <-. injection H2 as <-. exact Hb.
    + apply (Hl i prev blk); assumption.
Qed.

Lemma last_cons {A} (l : list A) : forall a d, last (a :: l) d = last l a.
Proof.
  induction l as [|x l IH]; intros a d; [reflexivity|].
  change (last (a :: x :: l) d) with (last (x :: l) d). now rewrite !IH.
Qed.

Lemma linked_snoc l : forall b blk,
  linked (b :: l) ->
  field_equals blk "previous_hash" (PStr (hash (last l b))) ->
  linked ((b :: l) ++ [blk]).
Proof.
  induction l as [|b' l IH]; intros b blk Hl Hblk.
  - simpl. apply linked_cons. split; [exact Hblk|apply linked_single].
  - apply linked_cons in Hl as [Hb' Hl].
    change ((b :: b' :: l) ++ [blk])%list with (b :: ((b' :: l) ++ [blk]))%list.
    change ((b' :: l) ++ [blk])%list with (b' :: (l ++ [blk]))%list.
    apply linked_cons. split; [exact Hb'|].
    apply (IH b' blk Hl).
    now rewrite last_cons in Hblk.
Qed.

Lemma valid_chain_loop_linked rest : forall b0,
  valid_chain_loop b0 rest = Ok true <-> linked (b0 :: rest).
Proof.
  induction rest as [|blk rest IH]; intros b0; simpl.
  - split; [intros _; apply linked_single|reflexivity].
  - rewrite linked_cons, <- IH. unfold field_equals. split.
    + destruct (getitem blk "previous_hash") as [ph|e]; simpl; [|discriminate].
      destruct (py_eq ph (PStr (hash b0))) eqn:E; simpl; [|discriminate].
      intros H. split; [exists ph; auto|exact H].
    + intros [(ph & -> & E) H]. simpl. now rewrite E.
Qed.

(** The block a transfer builds, and the chain after it. *)
Lemma new_block_transfer book lb s r pk sg now :
  last_block book = Ok lb ->
  new_block book (PStr (hash lb))
            (PDict [("sender", s); ("recipient", r); ("pubkey", pk); ("txsig", sg)])
            now
  = (Ok (transfer_block book lb s r pk sg now),
     mkChain (id book) (_chain book ++ [transfer_block book lb s r pk sg now])).
Proof.
  intros Hlb. unfold new_block.
  assert (Hph : (if truthy (PStr (hash lb)) then Ok (PStr (hash lb))
                 else b <- last_block book ;; Ok (PStr (hash b)))
                = Ok (PStr (hash lb))).
  { destruct (truthy (PStr (hash lb))); [reflexivity|]. now rewrite Hlb. }
  rewrite Hph. reflexivity.
Qed.

Lemma new_block_raise self ph data now e self' :
  new_block self ph data now = (Raise e, self') -> self' = self.
Proof.
  unfold new_block.
  destruct (if truthy ph then _ else _); [|congruence].
  destruct (truthy data); [|congruence].
  destruct data; congruence.
Qed.

Lemma exchange_payload_inv data payload :
  exchange_payload data = Ok payload ->
  exists s r pk sg,
    getitem data "sender" = Ok s /\ getitem data "recipient" = Ok r /\
    getitem data "pubkey" = Ok pk /\ getitem data "txsig" = Ok sg /\
    payload = PDict [("sender", s); ("recipient", r); ("pubkey", pk); ("txsig", sg)].
Proof.
  unfold exchange_payload.
  destruct (getitem data "sender") as [s|]; simpl; [|discriminate].
  destruct (getitem data "recipient") as [r|]; simpl; [|discriminate].
  destruct (getitem data "pubkey") as [pk|]; simpl; [|discriminate].
  destruct (getitem data "txsig") as [sg|]; simpl; [|discriminate].
  intros H. injection H as <-. exists s, r, pk, sg. auto.
Qed.

Lemma holds_book_true book data :
  holds_book book data = Ok true ->
  exists bid, getitem data "book_id" = Ok bid /\ py_eq (id book) bid = true.
Proof.
  unfold holds_book.
  destruct (getitem data "book_id") as [bid|]; simpl; [|discriminate].
  destruct (py_eq (id book) bid) eqn:E; [|discriminate].
  intros _. exists bid. auto.
Qed.

Lemma exchange_loop_spec data now books :
  forall r books',
    exchange_loop books data now = (r, books') ->
    (r = Ok true /\ transferred data now books books')
    \/ (r <> Ok true /\ books' = books).
Proof.
  induction books as [|book rest IH]; intros r books'; simpl.
  - intros H. injection H as <- <-. right. split; [discriminate|reflexivity].
  - destruct (holds_book book data) as [[|]|e] eqn:Hh.
    + destruct (exchange_payload data) as [payload|e] eqn:Hp.
      2:{ intros H. injection H as <- <-. right. split; [discriminate|reflexivity]. }
      destruct (last_block book) as [lb|e] eqn:Hlb.
      2:{ intros H. injection H as <- <-. right. split; [discriminate|reflexivity]. }
      apply exchange_payload_inv in Hp as (s & rc & pk & sg & Hs & Hr & Hpk & Hsg & ->).
      rewrite (new_block_transfer book lb s rc pk sg now Hlb).
      intros H. injection H as <- <-. left. split; [reflexivity|].
      destruct (holds_book_true _ _ Hh) as (bid & Hbid & Hid).
      eapply (Transferred data now _ _ [] book rest); eauto.
    + destruct (exchange_loop rest data now) as [r0 rest'] eqn:Hrest.
      intros H. injection H as <- <-.
      destruct (IH r0 rest' eq_refl) as [[-> Ht]|[Hr ->]].
      * left. split; [reflexivity|].
        destruct Ht as [pre bk post lb bid s rc pk sg -> Hpre Hbk Hbid Hid Hlb Hs Hr Hpk Hsg ->].
        eapply (Transferred data now _ _ (book :: pre) bk post); eauto.
      * right. auto.
    + intros H. injection H as <- <-. right. split; [discriminate|reflexivity].
Qed.

Lemma exchange_loop_none data now books :
  Forall (fun b => holds_book b data = Ok false) books ->
  exchange_loop books data now = (Ok false, books).
Proof.
  induction 1 as [|book rest Hb _ IH]; simpl; auto.
  now rewrite Hb, IH.
Qed.

Lemma create_exchange_spec lib data now r lib' :
  create_exchange lib data now = (r, lib') ->
  (r = Ok true /\ transferred data now lib lib') \/ (r <> Ok true /\ lib' = lib).
Proof.
  unfold create_exchange.
  destruct (s <- getitem data "sender" ;; _) as [[|]|e].
  - intros H. injection H as <- <-. right. split; [discriminate|reflexivity].
  - apply exchange_loop_spec.
  - intros H. injection H as <- <-. right. split; [discriminate|reflexivity].
Qed.

(** Where the value under a key of [{**a, **b}] comes from. *)
Lemma dict_get_merge_origin b : forall a k v,
  dict_get (dict_merge a b) k = Some v -> In (k, v) b \/ dict_get a k = Some v.
Proof.
  unfold dict_merge.
  induction b as [|[k0 v0] b IH]; simpl; intros a k v H; auto.
  apply IH in H as [H|H]; auto.
  rewrite dict_get_set in H.
  destruct (String.eqb_spec k0 k) as [->|]; auto.
  injection H as ->. auto.
Qed.

Lemma keys_dict_set d k v kx :
  In kx (keys (dict_set d k v)) <-> In kx (keys d) \/ kx = k.
Proof.
  induction d as [|[k0 v0] d IH]; simpl.
  - intuition congruence.
  - destruct (String.eqb_spec k0 k) as [->|Hne]; simpl.
    + intuition congruence.
    + rewrite IH. tauto.
Qed.

Lemma keys_dict_merge b : forall a kx,
  In kx (keys (dict_merge a b)) <-> In kx (keys a) \/ In kx (keys b).
Proof.
  unfold dict_merge.
  induction b as [|[k0 v0] b IH]; simpl; intros a kx; [tauto|].
  rewrite IH, keys_dict_set. intuition congruence.
Qed.

(** What the constructor builds from a payload. *)
Lemma Chain_init_payload id0 data now book :
  Chain_init id0 data PNone now = Ok book ->
  exists d, data = PDict d /\ d <> [] /\
    book = mkChain id0
             [PDict (dict_merge [("index", PInt 1);
                                 ("previous_hash", GENESIS_SENTINEL);
                                 ("timestamp", PStr now)] d)].
Proof.
  unfold Chain_init, new_block. simpl.
  destruct (truthy data) eqn:T; [|discriminate].
  destruct data as [| | | | |d|]; try discriminate.
  intros H. injection H as <-. exists d. repeat split.
  now destruct d.
Qed.

Lemma genesis_block_sentinel d now :
  keeps_sentinel (PDict d) = true ->
  field_equals (PDict (dict_merge [("index", PInt 1);
                                   ("previous_hash", GENESIS_SENTINEL);
                                   ("timestamp", PStr now)] d))
               "previous_hash" GENESIS_SENTINEL.
Proof.
  intros K. unfold field_equals, getitem.
  destruct (dict_get (dict_merge _ d) "previous_hash") as [v|] eqn:G.
  - exists v. split; [reflexivity|].
    apply dict_get_merge_origin in G as [Hin|G].
    + simpl in K. rewrite forallb_forall in K. specialize (K _ Hin).
      simpl in K. exact K.
    + simpl in G. injection G as <-. reflexivity.
  - exfalso. apply dict_get_None in G. apply G.
    apply keys_dict_merge. left. simpl. auto.
Qed.

Lemma transfer_block_previous_hash book lb s r pk sg now :
  field_equals (transfer_block book lb s r pk sg now) "previous_hash"
               (PStr (hash lb)).
Proof.
  exists (PStr (hash lb)). split; [reflexivity|].
  apply py_eq_str. reflexivity.
Qed.

Lemma transfer_keeps_invariant book lb s r pk sg now :
  last_block book = Ok lb ->
  chain_invariant book ->
  chain_invariant
    (mkChain (id book) (_chain book ++ [transfer_block book lb s r pk sg now])).
Proof.
  unfold last_block, chain_invariant. simpl.
  intros Hlb [(b0 & rest & Hc & H0) Hl]. rewrite Hc in *.
  injection Hlb as <-. split.
  - exists b0, (rest ++ [transfer_block book (last rest b0) s r pk sg now])%list.
    split; [reflexivity|exact H0].
  - apply linked_snoc; [exact Hl|apply transfer_block_previous_hash].
Qed.

Lemma step_keeps_invariant lib r :
  request_keeps_sentinel r = true ->
  Forall chain_invariant lib -> Forall chain_invariant (step lib r).
Proof.
  intros K Hlib. destruct r as [id0 data now|data now]; simpl in *.
  - destruct (Chain_init id0 data PNone now) as [book|e] eqn:Hinit; auto.
    unfold add_book. destruct (existsb _ lib); simpl; auto.
    apply Forall_app. split; auto. constructor; auto.
    apply Chain_init_payload in Hinit as (d & -> & _ & ->).
    split; simpl.
    + eexists _, []. split; [reflexivity|]. now apply genesis_block_sentinel.
    + apply linked_single.
  - destruct (create_exchange lib data now) as [res lib'] eqn:Hx. simpl.
    apply create_exchange_spec in Hx as [[_ Ht]|[_ ->]]; auto.
    destruct Ht as [pre bk post lb bid s rc pk sg -> _ _ _ _ Hlb _ _ _ _ ->].
    apply Forall_app in Hlib as [Hpre Hpost].
    apply Forall_cons_iff in Hpost as [Hbk Hpost].
    apply Forall_app. split; auto. constructor; auto.
    now apply transfer_keeps_invariant.
Qed.

Lemma run_from_keeps_invariant rs : forall lib,
  forallb request_keeps_sentinel rs = true ->
  Forall chain_invariant lib -> Forall chain_invariant (fold_left step rs lib).
Proof.
  induction rs as [|r rs IH]; simpl; intros lib K Hlib; auto.
  apply andb_true_iff in K as [K1 K2].
  apply IH; auto. now apply step_keeps_invariant.
Qed.

(* ================================================================== *)
(** ** The claims                                                      *)
(* ================================================================== *)

(** *** C1: the linkage invariant *)

(** C1, as stated, fails: a genesis payload is merged over the header, so a
    payload with a [previous_hash] of its own replaces the sentinel in the
    first block of the chain it creates. *)
Lemma linkage_invariant_broken_by_payload :
  ~ Forall chain_invariant
      (run [NewBook (PStr "book-1")
                    (PDict [("previous_hash", PStr "x"); ("recipient", PStr "aa")])
                    "2021-05-01 10:00:00"]).
Proof.
  intros H. apply Forall_inv in H.
  destruct H as [(b0 & rest & Hc & v & Hget & Heq) _].
  simpl in Hc. injection Hc as <- <-.
  simpl in Hget. injection Hget as <-. discriminate Heq.
Qed.

(** C1 (amended): for every sequence of book creations and transfers in
    which no genesis payload carries a [previous_hash] other than the
    sentinel, every chain of the resulting library satisfies the linkage
    invariant: its first block's [previous_hash] equals the sentinel, and
    every later block's [previous_hash] equals the hash of the block
    before it. *)
Theorem linkage_invariant_reachable rs :
  forallb request_keeps_sentinel rs = true ->
  Forall chain_invariant (run rs).
Proof.
  intros K. unfold run. apply run_from_keeps_invariant; auto.
Qed.

Lemma linkage_invariant_reachable_witness :
  let rs :=
    [NewBook (PStr "book-1") (PDict [("sender", PNone); ("recipient", PStr "aa")])
             "2021-05-01 10:00:00";
     Exchange (PDict [("book_id", PStr "book-1"); ("sender", PStr "aa");
                      ("recipient", PStr "bb"); ("pubkey", PStr "3076");
                      ("txsig", PStr "3065")])
              "2021-05-01 10:05:00"] in
  forallb request_keeps_sentinel rs = true /\ Forall chain_invariant (run rs).
Proof.
  intros rs. split; [reflexivity|].
  apply (linkage_invariant_reachable rs). reflexivity.
Defined.

(** *** C2: a sender who does not hold the book *)

(** C2: when the declared sender differs from [last_block.recipient] of
    every chain that carries the requested book id, [create_exchange]
    returns [False] (the failure the spec names NotCurrentHolder) and the
    library, hence every chain in it, is unchanged. *)
Theorem create_exchange_not_current_holder lib data now bid s r :
  getitem data "book_id" = Ok bid ->
  getitem data "sender" = Ok s ->
  getitem data "recipient" = Ok r ->
  (exists book, In book lib /\ py_eq (id book) bid = true) ->
  (forall book, In book lib -> py_eq (id book) bid = true ->
     exists lb holder,
       last_block book = Ok lb /\ get_method lb "recipient" = Ok holder /\
       py_eq holder s = false) ->
  create_exchange lib data now = (Ok false, lib).
Proof.
  intros Hbid Hs Hr _ Hholder. unfold create_exchange.
  rewrite Hs, Hr. simpl.
  assert (Hnone : exchange_loop lib data now = (Ok false, lib)).
  { apply exchange_loop_none. apply Forall_forall. intros book Hin.
    unfold holds_book. rewrite Hbid. simpl.
    destruct (py_eq (id book) bid) eqn:E; [|reflexivity].
    destruct (Hholder book Hin E) as (lb & holder & Hlb & Hget & Hne).
    rewrite Hlb. simpl. rewrite Hget. simpl.
    rewrite Hs. simpl. now rewrite Hne. }
  rewrite Hnone. now destruct (py_eq s r).
Qed.

Lemma create_exchange_not_current_holder_witness :
  let book :=
    mkChain (PStr "book-1")
            [PDict [("index", PInt 1); ("previous_hash", PInt 1);
                    ("timestamp", PStr "2021-05-01 10:00:00");
                    ("sender", PNone); ("recipient", PStr "aa")]] in
  let data :=
    PDict [("book_id", PStr "book-1"); ("sender", PStr "cc");
           ("recipient", PStr "bb"); ("pubkey", PStr "3076");
           ("txsig", PStr "3065")] in
  create_exchange [book] data "2021-05-01 10:05:00" = (Ok false, [book]).
Proof.
  intros book data.
  apply (create_exchange_not_current_holder
           [book] data "2021-05-01 10:05:00" (PStr "book-1") (PStr "cc") (PStr "bb"));
    try reflexivity.
  - exists book. split; [now left|reflexivity].
  - intros b [<-|[]] _.
    exists (PDict [("index", PInt 1); ("previous_hash", PInt 1);
                   ("timestamp", PStr "2021-05-01 10:00:00");
                   ("sender", PNone); ("recipient", PStr "aa")]), (PStr "aa").
    repeat split; reflexivity.
Defined.

(** *** C3: the signature is not checked *)

(** C3 (the code departs from it): a transfer whose [txsig] is not even
    hexadecimal, so that [verify_block] cannot return [True] on the block,
    is accepted by [create_exchange], which appends the block. *)
Theorem create_exchange_accepts_unverifiable_signature
  (public_key : Type) (load_der_public_key : list Z -> result public_key)
  (verify_returns : public_key -> list Z -> list Z -> bool) :
  let genesis :=
    PDict [("index", PInt 1); ("previous_hash", PInt 1);
           ("timestamp", PStr "2021-05-01 10:00:00");
           ("sender", PNone); ("recipient", PStr "aa")] in
  let data :=
    PDict [("book_id", PStr "book-1"); ("sender", PStr "aa");
           ("recipient", PStr "bb"); ("pubkey", PStr "");
           ("txsig", PStr "zz")] in
  exists blk,
    create_exchange [mkChain (PStr "book-1") [genesis]] data "2021-05-01 10:05:00"
    = (Ok true, [mkChain (PStr "book-1") [genesis; blk]])
    /\ getitem blk "txsig" = Ok (PStr "zz")
    /\ verify_block public_key load_der_public_key verify_returns blk
       = Raise ValueError.
Proof.
  intros genesis data. eexists. split; [|split].
  - vm_compute. reflexivity.
  - reflexivity.
  - reflexivity.
Qed.

(** *** C4: [valid_chain] *)

(** C4, as stated, fails on the empty chain: [valid_chain] reads [chain[0]]
    before anything else and raises [IndexError], although the linkage
    condition holds of the empty list. *)
Lemma valid_chain_empty_not_valid :
  ~ (valid_chain [] = Ok true <-> linked []).
Proof.
  intros [_ H].
  assert (L : linked []) by (intros [|i] prev blk H1; discriminate H1).
  specialize (H L). discriminate H.
Qed.

(** C4 (amended): for every chain with at least one block, [valid_chain]
    returns [True] if and only if every block after the first has a
    [previous_hash] equal to the hash of the block before it; in particular
    a chain of one block is valid. *)
Theorem valid_chain_iff_linked b0 rest :
  (valid_chain (b0 :: rest) = Ok true <-> linked (b0 :: rest))
  /\ valid_chain [b0] = Ok true.
Proof.
  split; [apply valid_chain_loop_linked|reflexivity].
Qed.

(** *** C5: a transfer to oneself *)

(** C5: when the sender of a request equals its recipient,
    [create_exchange] returns [False] (the failure the spec names
    SelfTransfer) and leaves the library unchanged, whatever the book id,
    present, unknown or missing from the request. *)
Theorem create_exchange_self_transfer lib data now s r :
  getitem data "sender" = Ok s ->
  getitem data "recipient" = Ok r ->
  py_eq s r = true ->
  create_exchange lib data now = (Ok false, lib).
Proof.
  intros Hs Hr E. unfold create_exchange. rewrite Hs, Hr. simpl. now rewrite E.
Qed.

Lemma create_exchange_self_transfer_witness :
  let book :=
    mkChain (PStr "book-1")
            [PDict [("index", PInt 1); ("previous_hash", PInt 1);
                    ("timestamp", PStr "2021-05-01 10:00:00");
                    ("sender", PNone); ("recipient", PStr "aa")]] in
  let data :=
    PDict [("book_id", PStr "book-1"); ("sender", PStr "aa");
           ("recipient", PStr "aa"); ("pubkey", PStr "3076");
           ("txsig", PStr "3065")] in
  py_eq (PStr "aa") (PStr "aa") = true
  /\ create_exchange [book] data "2021-05-01 10:05:00" = (Ok false, [book]).
Proof.
  intros book data. split; [reflexivity|].
  apply (create_exchange_self_transfer
           [book] data "2021-05-01 10:05:00" (PStr "aa") (PStr "aa"));
    reflexivity.
Defined.

(** *** C6: [add_book] *)




(** *** C7: the genesis block *)

(** C7, as stated, fails: a payload with a [previous_hash] of its own
    produces a first block whose [previous_hash] is not the sentinel. *)
Lemma Chain_init_payload_overrides_sentinel :
  ~ (exists blk,
       Chain_init (PStr "book-1")
                  (PDict [("previous_hash", PStr "x"); ("recipient", PStr "aa")])
                  PNone "2021-05-01 10:00:00"
       = Ok (mkChain (PStr "book-1") [blk])
       /\ field_equals blk "previous_hash" GENESIS_SENTINEL).
Proof.
  intros (blk & Hinit & v & Hget & Heq).
  simpl in Hinit. injection Hinit as <-.
  simpl in Hget. injection Hget as <-. discriminate Heq.
Qed.

(** C7 (amended): for every id and every payload that is a dict with at
    least one field and carries no [previous_hash] other than the sentinel,
    the constructor succeeds and yields a chain of exactly one block; the
    block's [previous_hash] equals the sentinel, every field of the payload
    is in the block with its value, and the block has no field besides the
    header fields and those of the payload. *)
Theorem Chain_init_genesis id0 d now :
  d <> [] ->
  nodup_keys (keys d) = true ->
  keeps_sentinel (PDict d) = true ->
  exists blk,
    Chain_init id0 (PDict d) PNone now = Ok (mkChain id0 [PDict blk])
    /\ field_equals (PDict blk) "previous_hash" GENESIS_SENTINEL
    /\ (forall k v, dict_get d k = Some v -> dict_get blk k = Some v)
    /\ (forall k, In k (keys blk) ->
                  In k ["index"; "previous_hash"; "timestamp"] \/ In k (keys d)).
Proof.
  intros Hne ND K. apply nodup_keys_spec in ND.
  exists (dict_merge [("index", PInt 1); ("previous_hash", GENESIS_SENTINEL);
                      ("timestamp", PStr now)] d).
  split; [|split; [|split]].
  - destruct d; [congruence|reflexivity].
  - now apply genesis_block_sentinel.
  - intros k v Hget. apply dict_get_merge_in; auto. now apply dict_get_In.
  - intros k Hin. apply keys_dict_merge in Hin. exact Hin.
Qed.

Lemma Chain_init_genesis_witness :
  let d := [("sender", PNone); ("recipient", PStr "aa")] in
  exists blk,
    Chain_init (PStr "book-1") (PDict d) PNone "2021-05-01 10:00:00"
    = Ok (mkChain (PStr "book-1") [PDict blk])
    /\ field_equals (PDict blk) "previous_hash" GENESIS_SENTINEL
    /\ (forall k v, dict_get d k = Some v -> dict_get blk k = Some v)
    /\ (forall k, In k (keys blk) ->
                  In k ["index"; "previous_hash"; "timestamp"] \/ In k (keys d)).
Proof.
  intros d.
  apply (Chain_init_genesis (PStr "book-1") d "2021-05-01 10:00:00");
    [discriminate|reflexivity|reflexivity].
Defined.

(** Without a payload, or with an empty one, [new_block] reaches its
    [append] with [block] unbound. *)
Example Chain_init_without_payload :
  Chain_init (PStr "book-1") PNone PNone "2021-05-01 10:00:00"
  = Raise UnboundLocalError
  /\ Chain_init (PStr "book-1") (PDict []) PNone "2021-05-01 10:00:00"
     = Raise UnboundLocalError.
Proof. split; reflexivity. Qed.

(** *** C8: [verify_block] on malformed input *)

(** C8 (the code departs from it): [verify_block] does not return [False]
    on malformed input.  A block without the fields raises [KeyError], a
    signature that is not hexadecimal raises [ValueError], and so does a
    public key that is not hexadecimal; on well-formed hexadecimal text an
    exception of the key loader is passed on to the caller.  Only the
    outcome of the [verify] call itself is turned into a boolean. *)
Theorem verify_block_raises_on_malformed_input
  (public_key : Type) (load_der_public_key : list Z -> result public_key)
  (verify_returns : public_key -> list Z -> list Z -> bool) :
  let verify := verify_block public_key load_der_public_key verify_returns in
  verify (PDict []) = Raise KeyError
  /\ verify (PDict [("txsig", PStr "zz"); ("pubkey", PStr "3076")])
     = Raise ValueError
  /\ verify (PDict [("txsig", PStr "3065"); ("pubkey", PStr "xyz")])
     = Raise ValueError
  /\ verify (PDict [("txsig", PStr "3065"); ("pubkey", PStr "3076")])
     = (pubkey <- load_der_public_key [48; 118] ;;
        if verify_returns pubkey [48; 101] AUTHORIZATION_MESSAGE
        then Ok true else Ok false).
Proof.
  intros verify. repeat split.
Qed.

(** *** C9: the hash does not depend on insertion order *)

(** C9: two blocks with identical field values, in whatever order the
    fields were inserted, have the same hash, and the hash is a lowercase
    hexadecimal digest of 64 digits. *)
Theorem hash_independent_of_insertion_order b1 b2 :
  well_formed b1 = true ->
  same_fields b1 b2 = true ->
  hash b1 = hash b2 /\ is_hex_digest (hash b1) = true.
Proof.
  intros WF Hsame. unfold hash. split.
  - f_equal. now apply json_dumps_same_fields.
  - apply sha256_hexdigest_hex.
Qed.

Lemma hash_independent_of_insertion_order_witness :
  let b1 :=
    PDict [("index", PInt 1); ("previous_hash", PInt 1);
           ("timestamp", PStr "2021-05-01 10:00:00");
           ("sender", PNone); ("recipient", PStr "aa")] in
  let b2 :=
    PDict [("recipient", PStr "aa"); ("sender", PNone);
           ("timestamp", PStr "2021-05-01 10:00:00");
           ("previous_hash", PInt 1); ("index", PInt 1)] in
  hash b1 = hash b2 /\ is_hex_digest (hash b1) = true.
Proof.
  intros b1 b2.
  apply (hash_independent_of_insertion_order b1 b2); reflexivity.
Defined.

(** *** C10: what a successful transfer changes *)

(** C10: when [create_exchange] returns [True], exactly one book of the
    library, one whose id equals the requested book id, has one more block,
    made of the header and of the four fields [sender], [recipient],
    [pubkey], [txsig] of the request; the books before and after it are
    the same, and so is the list of book ids. *)
Theorem create_exchange_frame lib data now lib' :
  create_exchange lib data now = (Ok true, lib') ->
  exists pre book post lb bid s r pk sg,
    lib = (pre ++ book :: post)%list
    /\ getitem data "book_id" = Ok bid /\ py_eq (id book) bid = true
    /\ getitem data "sender" = Ok s /\ getitem data "recipient" = Ok r
    /\ getitem data "pubkey" = Ok pk /\ getitem data "txsig" = Ok sg
    /\ last_block book = Ok lb
    /\ lib' = (pre ++ mkChain (id book)
                        (_chain book ++ [transfer_block book lb s r pk sg now])
                   :: post)%list
    /\ map id lib' = map id lib.
Proof.
  intros H. apply create_exchange_spec in H as [[_ Ht]|[Hr _]]; [|congruence].
  destruct Ht as [pre bk post lb bid s rc pk sg -> _ _ Hbid Hid Hlb Hs Hr Hpk Hsg ->].
  exists pre, bk, post, lb, bid, s, rc, pk, sg.
  repeat (split; [assumption || reflexivity|]).
  now rewrite !map_app.
Qed.

Lemma create_exchange_frame_witness :
  let genesis id0 :=
    mkChain (PStr id0)
            [PDict [("index", PInt 1); ("previous_hash", PInt 1);
                    ("timestamp", PStr "2021-05-01 10:00:00");
                    ("sender", PNone); ("recipient", PStr "aa")]] in
  let data :=
    PDict [("book_id", PStr "book-2"); ("sender", PStr "aa");
           ("recipient", PStr "bb"); ("pubkey", PStr "3076");
           ("txsig", PStr "3065")] in
  let lib := [genesis "book-1"; genesis "book-2"; genesis "book-3"] in
  let lib' := snd (create_exchange lib data "2021-05-01 10:05:00") in
  map id lib' = map id lib.
Proof.
  intros genesis data lib lib'.
  destruct (create_exchange_frame lib data "2021-05-01 10:05:00" lib')
    as (pre & book & post & lb & bid & s & r & pk & sg & H).
  - reflexivity.
  - apply H.
Defined.

(* ================================================================== *)
(** ** Further properties of the code                                  *)
(* ================================================================== *)

(** *** Hexadecimal text and bytes *)

Lemma hex_digit_value n : hex_value (hex_digit n) = Some (n mod 16).
Proof.
  unfold hex_digit.
  pose proof (Z.mod_pos_bound n 16 ltac:(lia)) as Hb.
  rewrite <- (Z2Nat.id (n mod 16)) at 2 by lia.
  assert (H : (Z.to_nat (n mod 16) < 16)%nat) by lia.
  revert H. generalize (Z.to_nat (n mod 16)) as i. intros i H.
  do 16 (destruct i as [|i]; [reflexivity|]). lia.
Qed.

Lemma hex_digit_not_space n : is_space (hex_digit n) = false.
Proof.
  unfold hex_digit.
  assert (H : (Z.to_nat (n mod 16) < 16)%nat)
    by (pose proof (Z.mod_pos_bound n 16); lia).
  revert H. generalize (Z.to_nat (n mod 16)) as i. intros i H.
  do 16 (destruct i as [|i]; [reflexivity|]). lia.
Qed.

Lemma list_ascii_of_string_app s t :
  list_ascii_of_string (s ++ t)
  = (list_ascii_of_string s ++ list_ascii_of_string t)%list.
Proof.
  induction s as [|c s IH]; cbn [append list_ascii_of_string app]; congruence.
Qed.

(** [bytes.fromhex(bs.hex()) == bs] *)
Lemma fromhex_bytes_hex bs :
  is_bytes bs = true ->
  fromhex_chars (list_ascii_of_string (bytes_hex bs)) = Ok bs.
Proof.
  induction bs as [|b bs IH]; intros Hb; [reflexivity|].
  cbn [is_bytes forallb] in Hb. apply andb_true_iff in Hb as [Hr Hbs].
  cbn [bytes_hex]. rewrite list_ascii_of_string_app.
  cbn [hex_of list_ascii_of_string app fromhex_chars].
  rewrite hex_digit_not_space, !hex_digit_value.
  rewrite (IH Hbs). cbn [bind]. do 2 f_equal.
  change (4 * Z.of_nat 1) with 4. change (4 * Z.of_nat 0) with 0.
  rewrite Z.shiftr_0_r, Z.shiftr_div_pow2 by lia.
  change (2 ^ 4) with 16.
  assert (0 <= b < 256) by lia.
  rewrite (Z.mod_small (b / 16) 16) by (split; [apply Z.div_pos; lia|apply Z.div_lt_upper_bound; lia]).
  pose proof (Z.div_mod b 16 ltac:(lia)). lia.
Qed.

Lemma fromhex_chars_raises cs e : fromhex_chars cs = Raise e -> e = ValueError.
Proof.
  assert (H : forall n cs, (List.length cs <= n)%nat ->
                           fromhex_chars cs = Raise e -> e = ValueError).
  { clear cs. induction n as [|n IH]; intros [|c cs] Hn; simpl in *;
      try discriminate; try lia.
    destruct (is_space c); [apply IH; lia|].
    destruct (hex_value c); [|congruence].
    destruct cs as [|c2 cs]; [congruence|].
    destruct (hex_value c2); [|congruence].
    destruct (fromhex_chars cs) eqn:E; simpl; [discriminate|].
    intros H. injection H as <-. apply (IH cs); [simpl in Hn; lia|exact E]. }
  apply (H (List.length cs)). lia.
Qed.

(** A character that is neither a digit nor white space is never skipped. *)
Lemma fromhex_chars_bad_char cs c :
  In c cs -> hex_value c = None -> is_space c = false ->
  fromhex_chars cs = Raise ValueError.
Proof.
  intros Hin Hc Hs.
  assert (H : forall n cs, (List.length cs <= n)%nat -> In c cs ->
                           fromhex_chars cs = Raise ValueError).
  { clear cs Hin. induction n as [|n IH]; intros [|c0 cs] Hn Hin; simpl in *;
      try tauto; try lia.
    destruct (is_space c0) eqn:S0.
    { destruct Hin as [->|Hin]; [congruence|]. apply IH; [lia|exact Hin]. }
    destruct (hex_value c0) eqn:V0; [|reflexivity].
    destruct Hin as [->|Hin]; [congruence|].
    destruct cs as [|c2 cs]; [reflexivity|].
    destruct (hex_value c2) eqn:V2; [|reflexivity].
    destruct Hin as [->|Hin]; [congruence|].
    rewrite (IH cs); [reflexivity|simpl in Hn; lia|exact Hin]. }
  apply (H (List.length cs)); [lia|exact Hin].
Qed.

(** *** Addresses *)

(** X1: the address and the public key that [generate_transaction_addr]
    returns pass [verify_addr]; and a public key passes against that
    address only if its SHA-256 is the same. *)
Theorem verify_addr_generated public_bytes :
  is_bytes public_bytes = true ->
  let (addr, pubkey) := generate_transaction_addr public_bytes in
  verify_addr addr pubkey = Ok true
  /\ (forall other,
        is_bytes other = true ->
        verify_addr addr (PStr (bytes_hex other)) = Ok true ->
        sha256_hex_of_bytes other = sha256_hex_of_bytes public_bytes).
Proof.
  intros Hb. unfold generate_transaction_addr, verify_addr, bytes_fromhex. split.
  - rewrite (fromhex_bytes_hex _ Hb). cbn [bind py_eq].
    now rewrite String.eqb_refl.
  - intros other Ho. rewrite (fromhex_bytes_hex _ Ho). cbn [bind py_eq].
    destruct (String.eqb_spec (sha256_hex_of_bytes other)
                              (sha256_hex_of_bytes public_bytes));
      [auto|discriminate].
Qed.

Lemma verify_addr_generated_witness :
  let key := [48; 118; 48; 16; 6; 7; 42; 134; 72; 206; 61; 2; 1; 255; 0] in
  verify_addr (fst (generate_transaction_addr key))
              (snd (generate_transaction_addr key)) = Ok true.
Proof.
  intros key.
  exact (proj1 (verify_addr_generated key eq_refl)).
Defined.

(** X2: [verify_addr] does not answer [False] to a malformed public key: a
    [pubkey] string with a character that is neither a hexadecimal digit
    nor white space raises [ValueError], whatever the address. *)
Theorem verify_addr_malformed_pubkey addr s c :
  In c (list_ascii_of_string s) ->
  hex_value c = None -> is_space c = false ->
  verify_addr addr (PStr s) = Raise ValueError.
Proof.
  intros Hin Hv Hs. unfold verify_addr, bytes_fromhex.
  now rewrite (fromhex_chars_bad_char _ c Hin Hv Hs).
Qed.

Lemma verify_addr_malformed_pubkey_witness :
  verify_addr (PStr "aa") (PStr "0x3076") = Raise ValueError.
Proof.
  apply (verify_addr_malformed_pubkey (PStr "aa") "0x3076" "x"%char);
    [right; left; reflexivity|reflexivity|reflexivity].
Defined.

(** *** A transaction the node signs itself *)

(** [generate_signature] signs the bytes its hexadecimal argument spells. *)
Lemma generate_signature_hex sign msg :
  is_bytes msg = true ->
  generate_signature sign (PStr (bytes_hex msg))
  = Ok (PStr (bytes_hex (sign msg))).
Proof.
  intros Hm. unfold generate_signature, bytes_fromhex.
  now rewrite (fromhex_bytes_hex _ Hm).
Qed.

Lemma transaction_data_inv public_bytes sign values data :
  app.transaction_data public_bytes sign values = Ok data ->
  exists recipient book_id,
    getitem values "recipient" = Ok recipient
    /\ getitem values "book_id" = Ok book_id
    /\ data = PDict [("book_id", book_id);
                     ("sender", PStr (sha256_hex_of_bytes public_bytes));
                     ("recipient", recipient);
                     ("pubkey", PStr (bytes_hex public_bytes));
                     ("txsig", PStr (bytes_hex (sign AUTHORIZATION_MESSAGE)))].
Proof.
  unfold app.transaction_data, generate_transaction_addr.
  destruct (getitem values "recipient") as [recipient|]; [|discriminate].
  destruct (getitem values "book_id") as [book_id|]; [|discriminate].
  cbn [bind]. rewrite generate_signature_hex by reflexivity. cbn [bind].
  intros H. injection H as <-. eauto.
Qed.

(** A block whose [txsig] and [pubkey] spell a signature and a key that
    the package accepts passes [verify_block]. *)
Lemma verify_block_hex_fields
  (public_key : Type) (load_der_public_key : list Z -> result public_key)
  (verify_returns : public_key -> list Z -> list Z -> bool)
  (blk : pyval) (sig der : list Z) (key : public_key) :
  getitem blk "txsig" = Ok (PStr (bytes_hex sig)) ->
  getitem blk "pubkey" = Ok (PStr (bytes_hex der)) ->
  is_bytes sig = true -> is_bytes der = true ->
  load_der_public_key der = Ok key ->
  verify_returns key sig AUTHORIZATION_MESSAGE = true ->
  verify_block public_key load_der_public_key verify_returns blk = Ok true.
Proof.
  intros Hsig Hder Bsig Bder Hload Hver. unfold verify_block.
  rewrite Hsig. cbn [bind]. unfold bytes_fromhex at 1.
  rewrite (fromhex_bytes_hex _ Bsig). cbn [bind].
  rewrite Hder. cbn [bind]. unfold bytes_fromhex.
  rewrite (fromhex_bytes_hex _ Bder). cbn [bind].
  rewrite Hload. cbn [bind]. now rewrite Hver.
Qed.

(** X3: the request that [/book/exchange] builds for the node passes
    [verify_block], provided the [cryptography] package is sound on it:
    the serialized key loads back, and the signature the key pair produced
    for the authorization message verifies. *)
Theorem self_signed_transaction_verifies
  (public_key : Type) (load_der_public_key : list Z -> result public_key)
  (verify_returns : public_key -> list Z -> list Z -> bool)
  (public_bytes : list Z) (sign : list Z -> list Z)
  (values data : pyval) (key : public_key) :
  is_bytes public_bytes = true ->
  is_bytes (sign AUTHORIZATION_MESSAGE) = true ->
  load_der_public_key public_bytes = Ok key ->
  verify_returns key (sign AUTHORIZATION_MESSAGE) AUTHORIZATION_MESSAGE = true ->
  app.transaction_data public_bytes sign values = Ok data ->
  verify_block public_key load_der_public_key verify_returns data = Ok true.
Proof.
  intros Hpb Hsig Hload Hver Hdata.
  apply transaction_data_inv in Hdata as (recipient & book_id & _ & _ & ->).
  apply (verify_block_hex_fields _ _ _ _ (sign AUTHORIZATION_MESSAGE)
           public_bytes key); auto.
Qed.

Lemma self_signed_transaction_verifies_witness :
  let key := [48; 118; 48; 16; 6; 7; 42; 134; 72; 206; 61; 2; 1] in
  let sign := fun msg : list Z => (48 :: 101 :: rev msg)%list in
  let check := fun (k sig msg : list Z) =>
    if list_eq_dec Z.eq_dec sig (48 :: 101 :: rev msg)%list then true else false in
  let values := PDict [("book_id", PStr "book-1"); ("recipient", PStr "bb")] in
  exists data,
    app.transaction_data key sign values = Ok data
    /\ verify_block (list Z) (@Ok (list Z)) check data = Ok true.
Proof.
  intros key sign check values. eexists. split; [reflexivity|].
  apply (self_signed_transaction_verifies
           (list Z) (@Ok (list Z)) check key sign values _ key);
    reflexivity.
Defined.

(** *** Looking books up *)

Lemma find_app {A} (f : A -> bool) (l l' : list A) :
  find f (l ++ l')
  = match find f l with
    | Some x => Some x
    | None => find f l'
    end.
Proof.
  induction l as [|x l IH]; simpl; auto. now destruct (f x).
Qed.


Lemma find_split {A} (f : A -> bool) (l : list A) x :
  find f l = Some x ->
  exists pre post,
    l = (pre ++ x :: post)%list /\ f x = true /\ Forall (fun y => f y = false) pre.
Proof.
  induction l as [|y l IH]; simpl; [discriminate|].
  destruct (f y) eqn:E.
  - intros H. injection H as ->. exists [], l. auto.
  - intros H. destruct (IH H) as (pre & post & -> & Hx & Hpre).
    exists (y :: pre), post. auto.
Qed.



(** *** What a call does to the library *)

Lemma calls_ind (P : Library -> Prop) :
  P [] ->
  (forall lib c, P lib -> P (call_step lib c)) ->
  forall cs, P (calls cs).
Proof.
  intros Hnil Hstep cs. unfold calls.
  assert (H : forall lib, P lib -> P (fold_left call_step cs lib)).
  { induction cs as [|c cs IH]; simpl; auto. }
  apply H, Hnil.
Qed.

Lemma Chain_init_single id0 data exported now book :
  Chain_init id0 data exported now = Ok book ->
  exists blk, book = mkChain id0 [blk].
Proof.
  unfold Chain_init, new_block.
  destruct (truthy exported).
  - intros H. injection H as <-. eauto.
  - simpl. destruct (truthy data); [|discriminate].
    destruct data; try discriminate.
    intros H. injection H as <-. eauto.
Qed.

Lemma holds_book_inv book data :
  holds_book book data = Ok true ->
  exists bid lb holder s,
    getitem data "book_id" = Ok bid /\ py_eq (id book) bid = true
    /\ last_block book = Ok lb /\ get_method lb "recipient" = Ok holder
    /\ getitem data "sender" = Ok s /\ py_eq holder s = true.
Proof.
  unfold holds_book.
  destruct (getitem data "book_id") as [bid|] eqn:Hbid; simpl; [|discriminate].
  destruct (py_eq (id book) bid) eqn:E; [|discriminate].
  destruct (last_block book) as [lb|] eqn:Hlb; simpl; [|discriminate].
  destruct (get_method lb "recipient") as [holder|] eqn:Hget; simpl;
    [|discriminate].
  destruct (getitem data "sender") as [s|] eqn:Hs; simpl; [|discriminate].
  intros H. injection H as H. exists bid, lb, holder, s. repeat split; auto.
Qed.

(** Everything a successful transfer tells. *)
Lemma create_exchange_true_inv lib data now lib' :
  create_exchange lib data now = (Ok true, lib') ->
  exists pre book post lb bid holder s r pk sg,
    lib = (pre ++ book :: post)%list
    /\ Forall (fun b => holds_book b data = Ok false) pre
    /\ getitem data "book_id" = Ok bid /\ py_eq (id book) bid = true
    /\ getitem data "sender" = Ok s /\ getitem data "recipient" = Ok r
    /\ getitem data "pubkey" = Ok pk /\ getitem data "txsig" = Ok sg
    /\ last_block book = Ok lb /\ get_method lb "recipient" = Ok holder
    /\ py_eq holder s = true /\ py_eq s r = false
    /\ lib' = (pre ++ mkChain (id book)
                        (_chain book ++ [transfer_block book lb s r pk sg now])
                   :: post)%list.
Proof.
  intros H.
  assert (Hsr : exists s r, getitem data "sender" = Ok s
                            /\ getitem data "recipient" = Ok r
                            /\ py_eq s r = false).
  { unfold create_exchange in H.
    destruct (getitem data "sender") as [s|]; simpl in H; [|discriminate].
    destruct (getitem data "recipient") as [r|]; simpl in H; [|discriminate].
    destruct (py_eq s r) eqn:E; [discriminate|]. eauto. }
  destruct Hsr as (s0 & r0 & Hs0 & Hr0 & Hsr).
  apply create_exchange_spec in H as [[_ Ht]|[Hr _]]; [|congruence].
  destruct Ht as [pre bk post lb bid s rc pk sg -> Hpre Hbk Hbid Hid Hlb Hs Hr Hpk Hsg ->].
  apply holds_book_inv in Hbk
    as (bid' & lb' & holder & s' & _ & _ & Hlb' & Hget & Hs' & Hh).
  assert (lb' = lb) by congruence. assert (s' = s) by congruence.
  assert (s0 = s) by congruence. assert (r0 = rc) by congruence. subst.
  exists pre, bk, post, lb, bid, holder, s, rc, pk, sg.
  repeat (split; [assumption || reflexivity|]). reflexivity.
Qed.

Lemma call_step_cases lib c :
  call_step lib c = lib
  \/ (exists id0 blk,
        existsb (fun b => py_eq (id b) id0) lib = false
        /\ call_step lib c = (lib ++ [mkChain id0 [blk]])%list)
  \/ (exists data now, create_exchange lib data now = (Ok true, call_step lib c)).
Proof.
  destruct c as [id0 data exported now|data now]; simpl.
  - destruct (Chain_init id0 data exported now) as [book|] eqn:Hinit; auto.
    apply Chain_init_single in Hinit as (blk & ->).
    unfold add_book. simpl.
    destruct (existsb (fun b => py_eq (id b) id0) lib) eqn:E; simpl; auto.
    right. left. exists id0, blk. auto.
  - destruct (create_exchange lib data now) as [res lib'] eqn:Hx. simpl.
    destruct (create_exchange_spec _ _ _ _ _ Hx) as [[-> _]|[_ ->]]; auto.
    right. right. eauto.
Qed.

(** A property of single chains that every first block has and every
    transfer keeps holds of all the chains of a library. *)
Lemma calls_chain_invariant (Q : Chain -> Prop) :
  (forall id0 blk, Q (mkChain id0 [blk])) ->
  (forall book lb holder s r pk sg now,
     Q book -> last_block book = Ok lb ->
     get_method lb "recipient" = Ok holder ->
     py_eq holder s = true -> py_eq s r = false ->
     Q (mkChain (id book)
                (_chain book ++ [transfer_block book lb s r pk sg now]))) ->
  forall cs, Forall Q (calls cs).
Proof.
  intros Hfirst Hnext. apply calls_ind; [constructor|].
  intros lib c Hlib.
  destruct (call_step_cases lib c) as [->|[(id0 & blk & _ & ->)|(data & now & Hx)]];
    auto.
  - apply Forall_app. split; auto.
  - apply create_exchange_true_inv in Hx
      as (pre & book & post & lb & bid & holder & s & r & pk & sg
          & -> & _ & _ & _ & _ & _ & _ & _ & Hlb & Hget & Hh & Hsr & ->).
    apply Forall_app in Hlib as [Hpre Hpost].
    apply Forall_cons_iff in Hpost as [Hbk Hpost].
    apply Forall_app. split; auto. constructor; eauto.
Qed.

(** *** Invariants of every library the code can build *)

Lemma adjacent_single R b : adjacent R [b].
Proof.
  intros i prev blk H1 H2. destruct i as [|[|i]]; discriminate.
Qed.

Lemma adjacent_cons R a b l :
  adjacent R (a :: b :: l) <-> R a b /\ adjacent R (b :: l).
Proof.
  split.
  - intros H. split.
    + apply (H 0%nat a b); reflexivity.
    + intros i prev blk H1 H2. apply (H (S i) prev blk); assumption.
  - intros [Hb Hl] [|i] prev blk H1 H2.
    + simpl in H1, H2. injection H1 as <-. injection H2 as <-. exact Hb.
    + apply (Hl i prev blk); assumption.
Qed.

Lemma adjacent_snoc R l : forall b blk,
  adjacent R (b :: l) -> R (last l b) blk -> adjacent R ((b :: l) ++ [blk]).
Proof.
  induction l as [|b' l IH]; intros b blk Hl Hblk.
  - simpl. apply adjacent_cons. split; [exact Hblk|apply adjacent_single].
  - apply adjacent_cons in Hl as [Hb' Hl].
    change ((b :: b' :: l) ++ [blk])%list with (b :: b' :: (l ++ [blk]))%list.
    apply adjacent_cons. split; [exact Hb'|].
    apply (IH b' blk Hl). now rewrite last_cons in Hblk.
Qed.

Lemma last_block_inv book lb :
  last_block book = Ok lb ->
  exists b0 rest, _chain book = b0 :: rest /\ lb = last rest b0.
Proof.
  unfold last_block. destruct (_chain book) as [|b0 rest]; [discriminate|].
  intros H. injection H as <-. eauto.
Qed.

(** X5: in every library built by constructing and adding chains and by
    applying transfers, no book has an id equal to the id of a book that
    was added before it. *)
Theorem calls_distinct_ids cs : distinct_ids (calls cs).
Proof.
  revert cs. apply calls_ind.
  - intros i j bi bj _ H. destruct i; discriminate.
  - intros lib c Hlib.
    destruct (call_step_cases lib c) as [->|[(id0 & blk & E & ->)|(data & now & Hx)]];
      auto.
    + intros i j bi bj Hij Hi Hj.
      assert (Hjlen : (j < List.length (lib ++ [mkChain id0 [blk]]))%nat)
        by (apply nth_error_Some; congruence).
      rewrite length_app in Hjlen. simpl in Hjlen.
      rewrite nth_error_app1 in Hi by lia.
      destruct (Nat.eq_dec j (List.length lib)) as [->|Hne].
      * rewrite nth_error_app2, Nat.sub_diag in Hj by lia.
        injection Hj as <-. simpl.
        destruct (py_eq (id bi) id0) eqn:Eq; auto.
        assert (existsb (fun b => py_eq (id b) id0) lib = true).
        { apply existsb_exists. exists bi. split; auto.
          eapply nth_error_In; eauto. }
        congruence.
      * rewrite nth_error_app1 in Hj by lia. exact (Hlib i j bi bj Hij Hi Hj).
    + apply create_exchange_true_inv in Hx
        as (pre & book & post & lb & bid & holder & s & r & pk & sg
            & Hl & _ & _ & _ & _ & _ & _ & _ & _ & _ & _ & _ & Hl').
      assert (Hids : map id (call_step lib c) = map id lib)
        by (rewrite Hl', Hl, !map_app; reflexivity).
      intros i j bi bj Hij Hi Hj.
      apply (map_nth_error id) in Hi, Hj. rewrite Hids in Hi, Hj.
      rewrite nth_error_map in Hi, Hj.
      destruct (nth_error lib i) as [bi0|] eqn:Ei; [|discriminate].
      destruct (nth_error lib j) as [bj0|] eqn:Ej; [|discriminate].
      simpl in Hi, Hj. injection Hi as <-. injection Hj as <-.
      exact (Hlib i j bi0 bj0 Hij Ei Ej).
Qed.

(** X6: every chain of every library built by constructing and adding
    chains and by applying transfers passes [valid_chain]. *)
Theorem calls_chains_valid cs :
  Forall (fun book => valid_chain (_chain book) = Ok true) (calls cs).
Proof.
  eapply Forall_impl;
    [|apply (calls_chain_invariant
               (fun book => exists b0 rest,
                    _chain book = b0 :: rest /\ linked (b0 :: rest)))].
  - intros book (b0 & rest & -> & Hl). now apply valid_chain_loop_linked.
  - intros id0 blk. exists blk, []. split; [reflexivity|apply linked_single].
  - intros book lb holder s r pk sg now (b0 & rest & Hc & Hl) Hlb _ _ _.
    apply last_block_inv in Hlb as (b0' & rest' & Hc' & ->).
    rewrite Hc in Hc'. injection Hc' as <- <-. simpl. rewrite Hc.
    eexists _, _. split; [reflexivity|].
    apply (linked_snoc rest b0); [exact Hl|apply transfer_block_previous_hash].
Qed.

(** X7: in every chain of every such library, the sender of each block
    after the first equals the recipient recorded in the block before it,
    and differs from the recipient of its own block: custody passes from
    holder to holder. *)
Theorem calls_custody_handover cs :
  Forall (fun book => adjacent custody_handover (_chain book)) (calls cs).
Proof.
  apply calls_chain_invariant.
  - intros id0 blk. apply adjacent_single.
  - intros book lb holder s r pk sg now Hadj Hlb Hget Hh Hsr.
    apply last_block_inv in Hlb as (b0 & rest & Hc & ->).
    simpl. rewrite Hc in *.
    apply adjacent_snoc; [exact Hadj|].
    exists holder, s, r. repeat split; auto.
Qed.

(** X8: in every chain of every such library, each block after the first
    carries in [index] its position in the chain, counted from 1. *)
Theorem calls_later_blocks_numbered cs :
  Forall (fun book => later_blocks_numbered (_chain book)) (calls cs).
Proof.
  apply calls_chain_invariant.
  - intros id0 blk i b H. destruct i; discriminate.
  - intros book lb holder s r pk sg now Hnum _ _ _ _ i blk Hi. cbn [_chain] in Hi.
    destruct (Nat.lt_ge_cases (S i) (List.length (_chain book))) as [Hlt|Hge].
    + rewrite nth_error_app1 in Hi by lia. now apply Hnum.
    + assert (Hlen : (S i < List.length (_chain book ++ [transfer_block book lb s r pk sg now]))%nat)
        by (apply nth_error_Some; congruence).
      rewrite length_app in Hlen. simpl in Hlen.
      rewrite nth_error_app2 in Hi by lia.
      replace (S i - List.length (_chain book))%nat with 0%nat in Hi by lia.
      injection Hi as <-.
      replace (S i) with (List.length (_chain book)) by lia. reflexivity.
Qed.

Lemma extends_book_refl book : extends_book book book.
Proof. split; [reflexivity|]. exists []. now rewrite app_nil_r. Qed.

Lemma grows_refl lib : grows lib lib.
Proof. intros i book H. exists book. split; [exact H|apply extends_book_refl]. Qed.

Lemma grows_trans lib1 lib2 lib3 :
  grows lib1 lib2 -> grows lib2 lib3 -> grows lib1 lib3.
Proof.
  intros H12 H23 i b1 H1.
  destruct (H12 i b1 H1) as (b2 & H2 & [Hid12 (m12 & Hc12)]).
  destruct (H23 i b2 H2) as (b3 & H3 & [Hid23 (m23 & Hc23)]).
  exists b3. split; [exact H3|]. split; [congruence|].
  exists (m12 ++ m23)%list. rewrite Hc23, Hc12. now rewrite app_assoc.
Qed.

Lemma nth_error_replace_middle {A} (pre : list A) x x' post : forall i b,
  nth_error (pre ++ x :: post) i = Some b ->
  (nth_error (pre ++ x' :: post) i = Some b)
  \/ (b = x /\ nth_error (pre ++ x' :: post) i = Some x').
Proof.
  induction pre as [|p pre IH]; intros [|i] b H; simpl in *; auto.
  injection H as <-. auto.
Qed.

Lemma call_step_grows lib c : grows lib (call_step lib c).
Proof.
  destruct (call_step_cases lib c) as [->|[(id0 & blk & _ & ->)|(data & now & Hx)]].
  - apply grows_refl.
  - intros i book H. exists book. split; [|apply extends_book_refl].
    rewrite nth_error_app1; [exact H|]. apply nth_error_Some. congruence.
  - apply create_exchange_true_inv in Hx
      as (pre & book & post & lb & bid & holder & s & r & pk & sg
          & -> & _ & _ & _ & _ & _ & _ & _ & _ & _ & _ & _ & ->).
    intros i b H.
    destruct (nth_error_replace_middle pre book
                (mkChain (id book)
                   (_chain book ++ [transfer_block book lb s r pk sg now]))
                post i b H) as [H'|[-> H']].
    + exists b. split; [exact H'|apply extends_book_refl].
    + eexists. split; [exact H'|]. split; [reflexivity|]. simpl. eauto.
Qed.

(** X9: the library is append-only.  Whatever calls follow, every book
    stays at its place under the same id, and its chain keeps all its
    blocks, unchanged and in order, with new blocks only at the end. *)
Theorem calls_grow cs more : grows (calls cs) (calls (cs ++ more)).
Proof.
  unfold calls. rewrite fold_left_app.
  generalize (fold_left call_step cs []) as lib.
  induction more as [|c more IH]; intros lib; simpl.
  - apply grows_refl.
  - eapply grows_trans; [apply call_step_grows|apply IH].
Qed.

(** X10: [create_exchange] is all or nothing.  Unless it returns [True],
    whether it returns [False] or raises, the library is left as it was. *)
Theorem create_exchange_failure_leaves_library lib data now outcome lib' :
  create_exchange lib data now = (outcome, lib') ->
  outcome <> Ok true ->
  lib' = lib.
Proof.
  intros H Hne. apply create_exchange_spec in H as [[-> _]|[_ ->]];
    [congruence|reflexivity].
Qed.

Lemma create_exchange_failure_leaves_library_witness :
  let book :=
    mkChain (PStr "book-1")
            [PDict [("index", PInt 1); ("previous_hash", PInt 1);
                    ("timestamp", PStr "2021-05-01 10:00:00");
                    ("sender", PNone); ("recipient", PStr "aa")]] in
  let data :=
    PDict [("book_id", PStr "book-1"); ("sender", PStr "aa");
           ("recipient", PStr "bb"); ("pubkey", PStr "3076")] in
  create_exchange [book] data "2021-05-01 10:05:00" = (Raise KeyError, [book])
  /\ snd (create_exchange [book] data "2021-05-01 10:05:00") = [book].
Proof.
  intros book data. split; [reflexivity|].
  apply (create_exchange_failure_leaves_library
           [book] data "2021-05-01 10:05:00" (Raise KeyError));
    [reflexivity|discriminate].
Defined.

(** *** Transfers by the holder and by a former holder *)

Lemma holds_book_other_id book data bid :
  getitem data "book_id" = Ok bid -> py_eq (id book) bid = false ->
  holds_book book data = Ok false.
Proof.
  intros Hbid Hne. unfold holds_book. rewrite Hbid. simpl. now rewrite Hne.
Qed.

Lemma holds_book_same_request book data data2 :
  getitem data2 "book_id" = getitem data "book_id" ->
  getitem data2 "sender" = getitem data "sender" ->
  holds_book book data2 = holds_book book data.
Proof.
  intros Hb Hs. unfold holds_book. now rewrite Hb, Hs.
Qed.

Lemma exchange_loop_skip pre rest data now :
  Forall (fun b => holds_book b data = Ok false) pre ->
  exchange_loop (pre ++ rest) data now
  = (fst (exchange_loop rest data now),
     (pre ++ snd (exchange_loop rest data now))%list).
Proof.
  induction 1 as [|b pre Hb _ IH]; simpl.
  - now destruct (exchange_loop rest data now).
  - rewrite Hb, IH. reflexivity.
Qed.

Lemma last_block_snoc id0 chain blk :
  last_block (mkChain id0 (chain ++ [blk])) = Ok blk.
Proof.
  unfold last_block. simpl.
  destruct chain as [|b chain]; simpl; [reflexivity|].
  f_equal. rewrite <- (last_cons (chain ++ [blk]) b blk).
  change (b :: chain ++ [blk])%list with ((b :: chain) ++ [blk])%list.
  apply last_last.
Qed.

(** The transfer of the holder of the first book under the requested id. *)
Lemma holder_transfer lib data now bid s r pk sg book lb holder :
  getitem data "book_id" = Ok bid ->
  getitem data "sender" = Ok s -> getitem data "recipient" = Ok r ->
  getitem data "pubkey" = Ok pk -> getitem data "txsig" = Ok sg ->
  py_eq s r = false ->
  fetch_book lib bid = Some book ->
  last_block book = Ok lb -> get_method lb "recipient" = Ok holder ->
  py_eq holder s = true ->
  let blk := transfer_block book lb s r pk sg now in
  let book' := mkChain (id book) (_chain book ++ [blk]) in
  exists pre post,
    lib = (pre ++ book :: post)%list
    /\ create_exchange lib data now = (Ok true, (pre ++ book' :: post)%list)
    /\ fetch_book (pre ++ book' :: post)%list bid = Some book'.
Proof.
  intros Hbid Hs Hr Hpk Hsg Hsr Hfetch Hlb Hget Hh blk book'.
  apply find_split in Hfetch as (pre & post & -> & Hid & Hpre).
  exists pre, post. split; [reflexivity|].
  assert (Hskip : Forall (fun b => holds_book b data = Ok false) pre).
  { eapply Forall_impl; [|exact Hpre]. intros b Hb.
    now apply (holds_book_other_id b data bid). }
  split.
  - unfold create_exchange. rewrite Hs, Hr. simpl. rewrite Hsr.
    rewrite (exchange_loop_skip pre _ data now Hskip). simpl.
    assert (Hholds : holds_book book data = Ok true).
    { unfold holds_book. rewrite Hbid. simpl. rewrite Hid, Hlb. simpl.
      rewrite Hget. simpl. rewrite Hs. simpl. now rewrite Hh. }
    rewrite Hholds.
    assert (Hpay : exchange_payload data
                   = Ok (PDict [("sender", s); ("recipient", r);
                                ("pubkey", pk); ("txsig", sg)])).
    { unfold exchange_payload. now rewrite Hs, Hr, Hpk, Hsg. }
    rewrite Hpay, Hlb, (new_block_transfer book lb s r pk sg now Hlb).
    reflexivity.
  - unfold fetch_book. rewrite find_app.
    assert (Hnone : find (fun b => py_eq (id b) bid) pre = None).
    { clear -Hpre. induction Hpre as [|b pre Hb _ IH]; simpl; auto.
      now rewrite Hb. }
    rewrite Hnone. simpl. now rewrite Hid.
Qed.



(** X12: once a transfer went through, its sender no longer holds the
    book: in a library without equal ids, any later request for the same
    book id from the same sender, to whatever recipient, returns [False]
    and leaves the library as it is. *)
Theorem former_holder_cannot_transfer
  lib data now lib' data2 now2 bid s r r2 :
  distinct_ids lib ->
  Forall (fun b => well_formed (id b) = true) lib ->
  well_formed bid = true -> well_formed s = true -> well_formed r = true ->
  getitem data "book_id" = Ok bid ->
  getitem data "sender" = Ok s -> getitem data "recipient" = Ok r ->
  getitem data2 "book_id" = Ok bid ->
  getitem data2 "sender" = Ok s -> getitem data2 "recipient" = Ok r2 ->
  create_exchange lib data now = (Ok true, lib') ->
  create_exchange lib' data2 now2 = (Ok false, lib').
Proof.
  intros Hdist WFids WFbid WFs WFr Hbid Hs Hr Hbid2 Hs2 Hr2 Hx.
  apply create_exchange_true_inv in Hx
    as (pre & book & post & lb & bid' & holder & s' & r' & pk & sg
        & -> & Hpre & Hbid' & Hid & Hs' & Hr' & _ & _ & Hlb & Hget & Hh & Hsr & ->).
  assert (bid' = bid) by congruence. assert (s' = s) by congruence.
  assert (r' = r) by congruence. subst bid' s' r'.
  assert (Hnone : exchange_loop
                    (pre ++ mkChain (id book)
                              (_chain book ++ [transfer_block book lb s r pk sg now])
                         :: post)%list data2 now2
                  = (Ok false,
                     (pre ++ mkChain (id book)
                               (_chain book ++ [transfer_block book lb s r pk sg now])
                          :: post)%list)).
  { apply exchange_loop_none. apply Forall_app. split; [|constructor].
    - eapply Forall_impl; [|exact Hpre]. intros b Hb.
      rewrite <- Hb. apply holds_book_same_request; congruence.
    - unfold holds_book. rewrite Hbid2. cbn [bind id]. rewrite Hid.
      rewrite last_block_snoc. cbn [bind].
      change (get_method (transfer_block book lb s r pk sg now) "recipient")
        with (@Ok pyval r).
      cbn [bind]. rewrite Hs2. cbn [bind].
      destruct (py_eq r s) eqn:Ers; [|reflexivity].
      apply py_eq_sym in Ers; auto. congruence.
    - apply Forall_forall. intros b Hb.
      apply (holds_book_other_id b data2 bid Hbid2).
      destruct (py_eq (id b) bid) eqn:Eb; [|reflexivity].
      apply In_nth_error in Hb as (n & Hn).
      assert (Hbook : nth_error (pre ++ book :: post) (List.length pre) = Some book)
        by (rewrite nth_error_app2, Nat.sub_diag by lia; reflexivity).
      assert (Hb' : nth_error (pre ++ book :: post) (List.length pre + S n) = Some b).
      { rewrite nth_error_app2 by lia.
        replace (List.length pre + S n - List.length pre)%nat with (S n) by lia.
        exact Hn. }
      assert (Hlt : (List.length pre < List.length pre + S n)%nat) by lia.
      pose proof (Hdist _ _ _ _ Hlt Hbook Hb') as Hne.
      rewrite Forall_forall in WFids.
      assert (WFb : well_formed (id b) = true)
        by (apply WFids; eapply nth_error_In; exact Hb').
      rewrite (py_eq_trans (id book) bid (id b) Hid
                 (py_eq_sym (id b) bid WFb WFbid Eb)) in Hne.
      discriminate. }
  unfold create_exchange. rewrite Hs2, Hr2. cbn [bind].
  rewrite Hnone. now destruct (py_eq s r2).
Qed.

Lemma former_holder_cannot_transfer_witness :
  let book :=
    mkChain (PStr "book-1")
            [PDict [("index", PInt 1); ("previous_hash", PInt 1);
                    ("timestamp", PStr "2021-05-01 10:00:00");
                    ("sender", PNone); ("recipient", PStr "aa")]] in
  let data :=
    PDict [("book_id", PStr "book-1"); ("sender", PStr "aa");
           ("recipient", PStr "bb"); ("pubkey", PStr "3076");
           ("txsig", PStr "3065")] in
  let data2 :=
    PDict [("book_id", PStr "book-1"); ("sender", PStr "aa");
           ("recipient", PStr "cc"); ("pubkey", PStr "3076");
           ("txsig", PStr "3065")] in
  let lib' := snd (create_exchange [book] data "2021-05-01 10:05:00") in
  create_exchange lib' data2 "2021-05-01 10:06:00" = (Ok false, lib').
Proof.
  intros book data data2 lib'.
  apply (former_holder_cannot_transfer
           [book] data "2021-05-01 10:05:00" lib' data2 "2021-05-01 10:06:00"
           (PStr "book-1") (PStr "aa") (PStr "bb") (PStr "cc"));
    try reflexivity.
  - intros [|i] [|j] bi bj Hij Hi Hj; try lia; destruct j; discriminate Hj.
  - repeat constructor.
Defined.

(** *** The routes of app.py *)

Lemma find_none_existsb {A} (f : A -> bool) (l : list A) :
  find f l = None -> existsb f l = false.
Proof.
  induction l as [|x l IH]; simpl; auto.
  destruct (f x); simpl; [discriminate|auto].
Qed.

Lemma find_some_existsb {A} (f : A -> bool) (l : list A) x :
  find f l = Some x -> existsb f l = true.
Proof.
  induction l as [|y l IH]; simpl; [discriminate|].
  destruct (f y); simpl; auto.
Qed.

(** The genesis block that [/book/new] builds. *)
Lemma new_book_unfold public_bytes neighbors post str_of lib values now bid :
  getitem values "book_id" = Ok bid ->
  let genesis :=
    PDict [("index", PInt 1); ("previous_hash", GENESIS_SENTINEL);
           ("timestamp", PStr now); ("sender", PNone);
           ("recipient", PStr (sha256_hex_of_bytes public_bytes))] in
  app.new_book public_bytes neighbors post str_of lib values now
  = match fetch_book lib bid with
    | None =>
        (match app.post_each post (app.book_posts neighbors str_of bid genesis) with
         | Some e => Raise e
         | None => Ok (app.mkResponse genesis 200)
         end,
         (lib ++ [mkChain bid [genesis]])%list)
    | Some _ =>
        (Ok (app.mkResponse
               (PDict [("error", PStr "This book must already exist.")]) 400),
         lib)
    end.
Proof.
  intros Hbid genesis. unfold app.new_book. rewrite Hbid.
  cbn [generate_transaction_addr fst].
  change (Chain_init bid
            (PDict [("sender", PNone);
                    ("recipient", PStr (sha256_hex_of_bytes public_bytes))])
            PNone now)
    with (@Ok Chain (mkChain bid [genesis])).
  unfold add_book, fetch_book. cbn [id].
  destruct (find (fun book => py_eq (id book) bid) lib) as [found|] eqn:F.
  - now rewrite (find_some_existsb _ _ _ F).
  - rewrite (find_none_existsb _ _ F).
    change (last_block (mkChain bid [genesis])) with (@Ok pyval genesis).
    cbv beta iota.
    now destruct (app.post_each post (app.book_posts neighbors str_of bid genesis)).
Qed.

(** What an answer 200 of [/book/new] tells. *)
Lemma new_book_200 public_bytes neighbors post str_of lib values now bid resp lib' :
  getitem values "book_id" = Ok bid ->
  app.new_book public_bytes neighbors post str_of lib values now = (Ok resp, lib') ->
  app.status resp = 200 ->
  fetch_book lib bid = None
  /\ lib' = (lib ++ [mkChain bid [app.body resp]])%list.
Proof.
  intros Hbid Hnew Hst.
  rewrite (new_book_unfold public_bytes neighbors post str_of lib values now bid Hbid)
    in Hnew.
  destruct (fetch_book lib bid) as [found|].
  - injection Hnew as <- <-. discriminate Hst.
  - destruct (app.post_each post _); [discriminate|].
    injection Hnew as <- <-. auto.
Qed.

(** X13: [/book/new] on a request that carries a [book_id] stores the book
    before it posts it.  When no book has the id, the library gains the
    chain made of the genesis block (the sentinel as [previous_hash], no
    sender, the node's address as recipient), whatever becomes of the
    posts; the route answers 200 with that block when every post to a
    neighbour returns, and raises what the first failing post raises
    otherwise.  When a book has the id, it answers 400, posts nothing and
    leaves the library unchanged. *)
Theorem new_book_answer public_bytes neighbors post str_of lib values now bid :
  getitem values "book_id" = Ok bid ->
  let genesis :=
    PDict [("index", PInt 1); ("previous_hash", GENESIS_SENTINEL);
           ("timestamp", PStr now); ("sender", PNone);
           ("recipient", PStr (sha256_hex_of_bytes public_bytes))] in
  let answer := app.new_book public_bytes neighbors post str_of lib values now in
  match fetch_book lib bid with
  | None =>
      snd answer = (lib ++ [mkChain bid [genesis]])%list
      /\ fst answer
         = match app.post_each post (app.book_posts neighbors str_of bid genesis) with
           | Some e => Raise e
           | None => Ok (app.mkResponse genesis 200)
           end
  | Some _ =>
      answer
      = (Ok (app.mkResponse
               (PDict [("error", PStr "This book must already exist.")]) 400),
         lib)
  end.
Proof.
  intros Hbid genesis answer. subst answer.
  rewrite (new_book_unfold public_bytes neighbors post str_of lib values now bid Hbid).
  destruct (fetch_book lib bid); [reflexivity|split; reflexivity].
Qed.

Lemma new_book_answer_witness :
  let values := PDict [("book_id", PStr "book-1")] in
  let key := [48; 118; 48; 16; 6; 7; 42; 134; 72; 206; 61; 2; 1] in
  let unreachable := fun (url : string) (json : pyval) => Some RequestException in
  let str_of := fun x => match x with PStr s => s | _ => "" end in
  exists blk,
    app.new_book key ["10.0.0.2:5000"] unreachable str_of [] values
                 "2021-05-01 10:00:00"
    = (Raise RequestException, [mkChain (PStr "book-1") [blk]]).
Proof.
  intros values key unreachable str_of. eexists.
  pose proof (new_book_answer key ["10.0.0.2:5000"] unreachable str_of [] values
                "2021-05-01 10:00:00" (PStr "book-1") eq_refl) as H.
  cbv zeta in H. cbn [fetch_book find] in H. destruct H as [H1 H2].
  apply injective_projections; [exact H2|exact H1].
Defined.

(** X14: a book created by [/book/new] is replicated as it is.  When
    [/book/new] answered 200 for a string id, the block it answered (the
    [book.last_block] it posted) is the whole chain it stored; and when
    that block reaches [/broadcast/book/<book_id>] of a node that has no
    book under the id, that node's library gains the same chain, block for
    block. *)
Theorem broadcast_book_replicates
  public_bytes neighbors post str_of lib values now name resp lib' replica later :
  getitem values "book_id" = Ok (PStr name) ->
  app.new_book public_bytes neighbors post str_of lib values now = (Ok resp, lib') ->
  app.status resp = 200 ->
  fetch_book replica (PStr name) = None ->
  lib' = (lib ++ [mkChain (PStr name) [app.body resp]])%list
  /\ app.broadcast_book replica name (app.body resp) later
     = (Ok (app.mkResponse (PStr "Success!") 200),
        (replica ++ [mkChain (PStr name) [app.body resp]])%list).
Proof.
  intros Hbid Hnew Hst Hrep.
  pose proof Hnew as Hnew'.
  rewrite (new_book_unfold public_bytes neighbors post str_of lib values now
             (PStr name) Hbid) in Hnew'.
  destruct (new_book_200 _ _ _ _ _ _ _ _ _ _ Hbid Hnew Hst) as [Hnone ->].
  split; [reflexivity|].
  rewrite Hnone in Hnew'.
  destruct (app.post_each post _); [discriminate|].
  injection Hnew' as <-. cbn [app.body].
  unfold app.broadcast_book, Chain_init. cbn [truthy].
  unfold add_book. cbn [id]. unfold fetch_book in Hrep.
  now rewrite (find_none_existsb _ _ Hrep).
Qed.

Lemma broadcast_book_replicates_witness :
  let values := PDict [("book_id", PStr "book-1")] in
  let key := [48; 118; 48; 16; 6; 7; 42; 134; 72; 206; 61; 2; 1] in
  let reachable := fun (url : string) (json : pyval) => @None exn in
  let str_of := fun x => match x with PStr s => s | _ => "" end in
  let answer :=
    app.new_book key ["10.0.0.2:5000"] reachable str_of [] values
                 "2021-05-01 10:00:00" in
  exists resp,
    fst answer = Ok resp
    /\ app.broadcast_book [] "book-1" (app.body resp) "2021-05-01 10:00:02"
       = (Ok (app.mkResponse (PStr "Success!") 200),
          [mkChain (PStr "book-1") [app.body resp]]).
Proof.
  intros values key reachable str_of answer. eexists. split; [reflexivity|].
  apply (proj2 (broadcast_book_replicates
                  key ["10.0.0.2:5000"] reachable str_of [] values
                  "2021-05-01 10:00:00" "book-1" _ (snd answer) []
                  "2021-05-01 10:00:02" eq_refl eq_refl eq_refl eq_refl)).
Defined.

(** X15: when [/book/new] answered 200 for a [book_id] that equals itself
    (as every id does but the float [nan]), [/book/chain/] with the same
    [book_id] answers 200 with the chain of that book: the block that
    [/book/new] answered and nothing else. *)
Theorem book_chain_after_new_book
  public_bytes neighbors post str_of lib values now bid resp lib' :
  getitem values "book_id" = Ok bid ->
  py_eq bid bid = true ->
  app.new_book public_bytes neighbors post str_of lib values now = (Ok resp, lib') ->
  app.status resp = 200 ->
  app.book_chain lib' values = Ok (app.mkResponse (PList [app.body resp]) 200).
Proof.
  intros Hbid Hrefl Hnew Hst.
  destruct (new_book_200 _ _ _ _ _ _ _ _ _ _ Hbid Hnew Hst) as [Hnone ->].
  unfold app.book_chain. rewrite Hbid. cbn [bind].
  unfold fetch_book in *. rewrite find_app, Hnone. cbn [find id].
  now rewrite Hrefl.
Qed.

Lemma book_chain_after_new_book_witness :
  let values := PDict [("book_id", PStr "book-1")] in
  let key := [48; 118; 48; 16; 6; 7; 42; 134; 72; 206; 61; 2; 1] in
  let reachable := fun (url : string) (json : pyval) => @None exn in
  let str_of := fun x => match x with PStr s => s | _ => "" end in
  let answer :=
    app.new_book key ["10.0.0.2:5000"] reachable str_of [] values
                 "2021-05-01 10:00:00" in
  exists resp,
    fst answer = Ok resp
    /\ app.book_chain (snd answer) values
       = Ok (app.mkResponse (PList [app.body resp]) 200).
Proof.
  intros values key reachable str_of answer. eexists. split; [reflexivity|].
  apply (book_chain_after_new_book
           key ["10.0.0.2:5000"] reachable str_of [] values
           "2021-05-01 10:00:00" (PStr "book-1") _ (snd answer));
    reflexivity.
Defined.

Lemma transaction_data_ok public_bytes sign values recipient book_id :
  getitem values "recipient" = Ok recipient ->
  getitem values "book_id" = Ok book_id ->
  app.transaction_data public_bytes sign values
  = Ok (PDict [("book_id", book_id);
               ("sender", PStr (sha256_hex_of_bytes public_bytes));
               ("recipient", recipient);
               ("pubkey", PStr (bytes_hex public_bytes));
               ("txsig", PStr (bytes_hex (sign AUTHORIZATION_MESSAGE)))]).
Proof.
  intros Hr Hb. unfold app.transaction_data, generate_transaction_addr.
  rewrite Hr, Hb. cbn [bind].
  now rewrite generate_signature_hex by reflexivity.
Qed.

(** X16: [/book/exchange] by the holder appends the block before it posts
    it.  When the node's address is the recipient recorded in the last
    block of the book that [fetch_book] finds under the requested id, and
    the request names another recipient, the book gains one block that
    records the new recipient, whatever becomes of the posts, and that
    block passes [verify_block] (provided the [cryptography] package loads
    the node's key back and accepts the signature it made); the route
    answers 200 with the request it built when every post to a neighbour
    returns, and raises what the first failing post raises otherwise. *)
Theorem new_transaction_by_holder
  (public_key : Type) (load_der_public_key : list Z -> result public_key)
  (verify_returns : public_key -> list Z -> list Z -> bool)
  (public_bytes : list Z) (sign : list Z -> list Z) (key : public_key)
  neighbors post lib values now bid recipient book lb holder :
  is_bytes public_bytes = true ->
  is_bytes (sign AUTHORIZATION_MESSAGE) = true ->
  load_der_public_key public_bytes = Ok key ->
  verify_returns key (sign AUTHORIZATION_MESSAGE) AUTHORIZATION_MESSAGE = true ->
  getitem values "book_id" = Ok bid ->
  getitem values "recipient" = Ok recipient ->
  fetch_book lib bid = Some book ->
  last_block book = Ok lb -> get_method lb "recipient" = Ok holder ->
  py_eq holder (PStr (sha256_hex_of_bytes public_bytes)) = true ->
  py_eq (PStr (sha256_hex_of_bytes public_bytes)) recipient = false ->
  exists data lib' book' blk,
    app.new_transaction public_bytes sign neighbors post lib values now
    = (match app.post_each post (app.block_posts neighbors data) with
       | Some e => Raise e
       | None => Ok (app.mkResponse data 200)
       end, lib')
    /\ app.transaction_data public_bytes sign values = Ok data
    /\ fetch_book lib' bid = Some book'
    /\ _chain book' = (_chain book ++ [blk])%list
    /\ get_method blk "recipient" = Ok recipient
    /\ verify_block public_key load_der_public_key verify_returns blk = Ok true.
Proof.
  intros Bpk Bsig Hload Hver Hbid Hrc Hfetch Hlb Hget Hh Hne.
  pose proof (transaction_data_ok public_bytes sign values recipient bid Hrc Hbid)
    as Hdata.
  destruct (holder_transfer lib
              (PDict [("book_id", bid);
                      ("sender", PStr (sha256_hex_of_bytes public_bytes));
                      ("recipient", recipient);
                      ("pubkey", PStr (bytes_hex public_bytes));
                      ("txsig", PStr (bytes_hex (sign AUTHORIZATION_MESSAGE)))])
              now bid (PStr (sha256_hex_of_bytes public_bytes)) recipient
              (PStr (bytes_hex public_bytes))
              (PStr (bytes_hex (sign AUTHORIZATION_MESSAGE))) book lb holder)
    as (pre & post' & _ & Hx & Hf); auto.
  eexists _, _, _, _.
  split; [|split; [exact Hdata|split; [exact Hf|split; [reflexivity|split]]]].
  - unfold app.new_transaction. rewrite Hdata, Hx.
    now destruct (app.post_each post _).
  - reflexivity.
  - apply (verify_block_hex_fields _ _ _ _ (sign AUTHORIZATION_MESSAGE)
             public_bytes key); auto.
Qed.

Lemma new_transaction_by_holder_witness :
  let key := [48; 118; 48; 16; 6; 7; 42; 134; 72; 206; 61; 2; 1] in
  let sign := fun msg : list Z => (48 :: 101 :: rev msg)%list in
  let check := fun (k sig msg : list Z) =>
    if list_eq_dec Z.eq_dec sig (48 :: 101 :: rev msg)%list then true else false in
  let unreachable := fun (url : string) (json : pyval) => Some RequestException in
  let genesis :=
    PDict [("index", PInt 1); ("previous_hash", PInt 1);
           ("timestamp", PStr "2021-05-01 10:00:00"); ("sender", PNone);
           ("recipient", PStr (sha256_hex_of_bytes key))] in
  let book := mkChain (PStr "book-1") [genesis] in
  let values := PDict [("book_id", PStr "book-1"); ("recipient", PStr "bb")] in
  exists data lib' book' blk,
    app.new_transaction key sign ["10.0.0.2:5000"] unreachable [book] values
                        "2021-05-01 10:05:00"
    = (match app.post_each unreachable (app.block_posts ["10.0.0.2:5000"] data) with
       | Some e => Raise e
       | None => Ok (app.mkResponse data 200)
       end, lib')
    /\ app.transaction_data key sign values = Ok data
    /\ fetch_book lib' (PStr "book-1") = Some book'
    /\ _chain book' = (_chain book ++ [blk])%list
    /\ get_method blk "recipient" = Ok (PStr "bb")
    /\ verify_block (list Z) (@Ok (list Z)) check blk = Ok true.
Proof.
  intros key sign check unreachable genesis book values.
  apply (new_transaction_by_holder
           (list Z) (@Ok (list Z)) check key sign key ["10.0.0.2:5000"]
           unreachable [book] values
           "2021-05-01 10:05:00" (PStr "book-1") (PStr "bb") book genesis
           (PStr (sha256_hex_of_bytes key)));
    reflexivity.
Defined.

(** *** Requests that cannot raise *)








(** X18: a request for an id under which [fetch_book] finds no book is
    answered [False] and changes nothing, provided it has a [book_id], a
    [sender] and a [recipient]; [pubkey] and [txsig] are not looked at. *)
Theorem create_exchange_unknown_book lib data now bid s r :
  getitem data "book_id" = Ok bid ->
  getitem data "sender" = Ok s -> getitem data "recipient" = Ok r ->
  fetch_book lib bid = None ->
  create_exchange lib data now = (Ok false, lib).
Proof.
  intros Hbid Hs Hr Hnone. unfold create_exchange.
  rewrite Hs, Hr. cbn [bind].
  assert (Hloop : exchange_loop lib data now = (Ok false, lib)).
  { apply exchange_loop_none. apply Forall_forall. intros book Hin.
    apply (holds_book_other_id book data bid Hbid).
    destruct (py_eq (id book) bid) eqn:E; [|reflexivity].
    unfold fetch_book in Hnone.
    pose proof (find_none _ _ Hnone book Hin) as Hf. simpl in Hf. congruence. }
  rewrite Hloop. now destruct (py_eq s r).
Qed.

Lemma create_exchange_unknown_book_witness :
  let book :=
    mkChain (PStr "book-1")
            [PDict [("index", PInt 1); ("previous_hash", PInt 1);
                    ("timestamp", PStr "2021-05-01 10:00:00");
                    ("sender", PNone); ("recipient", PStr "aa")]] in
  let data :=
    PDict [("book_id", PStr "book-9"); ("sender", PStr "aa");
           ("recipient", PStr "bb")] in
  create_exchange [book] data "2021-05-01 10:05:00" = (Ok false, [book]).
Proof.
  intros book data.
  apply (create_exchange_unknown_book
           [book] data "2021-05-01 10:05:00" (PStr "book-9") (PStr "aa") (PStr "bb"));
    reflexivity.
Defined.

(** *** [new_block] without a hash *)


